(** * run-tests.py: the PySpark parallel test scheduler

  A shallow embedding of [python/run-tests.py]: the priority queue of
  pending (executable, goal) tasks, the per-task runner with its isolated
  directories, subprocess environment, failure reporter and skip
  registry, and the single-consumer worker loop of [main]. *)

From Stdlib Require Import ZArith Lia Ascii String OrderedTypeEx.
From stdpp Require Import gmap strings list fin_maps sorting.

Local Open Scope string_scope.
Local Open Scope Z_scope.
Local Open Scope nat_scope.
Local Open Scope list_scope.

(** ** [heapq]: the array heap underneath [queue.PriorityQueue]

  [PriorityQueue._put] is [heappush(self.queue, item)] and
  [PriorityQueue._get] is [heappop(self.queue)].  The heap is a Python
  list updated by index; the comparison is the item type's [<]. *)

Module heapq.
Section heap.
Context {A : Type}.
Variable lt : A → A → bool.

(** [not (b < a)] *)
Definition le (a b : A) : Prop := lt b a = false.

(** [(pos - 1) >> 1] *)
Definition parent (pos : nat) : nat := (pos - 1) / 2.

(** The [while pos > startpos] loop of [_siftdown]; each round moves to
    the parent position, so [pos] rounds are enough. *)
Fixpoint siftdown_loop (fuel : nat) (heap : list A) (newitem : A)
    (startpos pos : nat) : list A :=
  match fuel with
  | S fuel' =>
      if decide (startpos < pos) then
        match heap !! parent pos with
        | Some p =>
            if lt newitem p
            then siftdown_loop fuel' (<[pos := p]> heap) newitem startpos (parent pos)
            else <[pos := newitem]> heap
        | None => <[pos := newitem]> heap
        end
      else <[pos := newitem]> heap
  | O => <[pos := newitem]> heap
  end.

Definition _siftdown (heap : list A) (startpos pos : nat) : list A :=
  match heap !! pos with
  | Some newitem => siftdown_loop pos heap newitem startpos pos
  | None => heap
  end.

(** [if rightpos < endpos and not heap[childpos] < heap[rightpos]:
       childpos = rightpos] *)
Definition smaller_child (heap : list A) (childpos : nat) : nat :=
  match heap !! childpos, heap !! (childpos + 1) with
  | Some l, Some r => if lt l r then childpos else childpos + 1
  | _, _ => childpos
  end.

(** The [while childpos < endpos] loop of [_siftup]: the hole at [pos]
    is bubbled down to a leaf along the smaller children.  Returns the
    heap and the final hole position. *)
Fixpoint siftup_loop (fuel : nat) (heap : list A) (pos : nat) : list A * nat :=
  match fuel with
  | S fuel' =>
      if decide (2 * pos + 1 < length heap) then
        let childpos := smaller_child heap (2 * pos + 1) in
        match heap !! childpos with
        | Some c => siftup_loop fuel' (<[pos := c]> heap) childpos
        | None => (heap, pos)
        end
      else (heap, pos)
  | O => (heap, pos)
  end.

Definition _siftup (heap : list A) (pos : nat) : list A :=
  match heap !! pos with
  | Some newitem =>
      let '(heap1, pos1) := siftup_loop (length heap) heap pos in
      _siftdown (<[pos1 := newitem]> heap1) pos pos1
  | None => heap
  end.

(** [heap.append(item); _siftdown(heap, 0, len(heap)-1)] *)
Definition heappush (heap : list A) (item : A) : list A :=
  _siftdown (heap ++ [item]) 0 (length heap).

(** [heappop]: [None] stands for the [IndexError] of [heap.pop()] on an
    empty list. *)
Definition heappop (heap : list A) : option (A * list A) :=
  match last heap with
  | None => None
  | Some lastelt =>
      let heap' := removelast heap in
      match heap' with
      | returnitem :: _ => Some (returnitem, _siftup (<[0 := lastelt]> heap') 0)
      | [] => Some (lastelt, [])
      end
  end.

(** *** Heap order, as used in the proofs below *)

(** The heap seen as a partial function from positions to items. *)
Definition edge_ok (f : nat → option A) (j : nat) : Prop :=
  ∀ x y, f (parent j) = Some x → f j = Some y → le x y.

Definition heap_ordered (h : list A) : Prop :=
  ∀ j, 0 < j → edge_ok (λ k, h !! k) j.

(** Every edge is in order except the one into [pos], and the parent of
    [pos] is below the children of [pos]. *)
Definition up_inv (f : nat → option A) (pos : nat) : Prop :=
  (∀ j, 0 < j → j ≠ pos → edge_ok f j) ∧
  (0 < pos → ∀ c x y, 0 < c → parent c = pos →
     f (parent pos) = Some x → f c = Some y → le x y).

(** Every edge that does not touch [pos] is in order, and the parent of
    [pos] is below the children of [pos]. *)
Definition down_inv (f : nat → option A) (pos : nat) : Prop :=
  (∀ j, 0 < j → j ≠ pos → parent j ≠ pos → edge_ok f j) ∧
  (0 < pos → ∀ c x y, 0 < c → parent c = pos →
     f (parent pos) = Some x → f c = Some y → le x y).

Definition swapf (f : nat → option A) (a b : nat) : nat → option A :=
  λ k, if decide (k = a) then f b else if decide (k = b) then f a else f k.

End heap.
End heapq.

(** ** The task queue of [main] *)

(** A queue entry is the Python tuple [(priority, (python_exec, test_goal))]. *)
Definition task : Type := Z * (string * string).

Definition priority (t : task) : Z := t.1.
Definition python_exec (t : task) : string := t.2.1.
Definition test_goal (t : task) : string := t.2.2.

(** Python's [<] on [str]: lexicographic on code points. *)
Definition str_lt (a b : string) : bool := String.ltb a b.

(** Python's [<] on tuples: the first position where the two differ
  decides. *)
Definition pair_lt (a b : string * string) : bool :=
if decide (a.1 = b.1) then str_lt a.2 b.2 else str_lt a.1 b.1.

Definition task_lt (a b : task) : bool :=
if decide (a.1 = b.1) then pair_lt a.2 b.2 else (a.1 <? b.1)%Z.

(** [not (b < a)] on queue entries and on their (executable, goal) part. *)
Definition task_le (a b : task) : Prop := heapq.le task_lt a b.
Definition pair_le (a b : string * string) : Prop := pair_lt b a = false.

Module PriorityQueue.
(** [task_queue.put(item)] *)
Definition put (q : list task) (item : task) : list task :=
  heapq.heappush task_lt q item.

(** [task_queue.get_nowait()]; [None] is [queue.Empty]. *)
Definition get_nowait (q : list task) : option (task * list task) :=
  match q with
  | [] => None
  | _ => heapq.heappop task_lt q
  end.
End PriorityQueue.

(** All the [put]s of [main], in order, on a fresh queue. *)
Definition put_all (tasks : list task) : list task :=
foldl PriorityQueue.put [] tasks.

(** The pops of a single consumer: [get_nowait] until [queue.Empty]. *)
Fixpoint pop_all (fuel : nat) (q : list task) : list task :=
match fuel with
| O => []
| S fuel' =>
    match PriorityQueue.get_nowait q with
    | None => []
    | Some (t, q') => t :: pop_all fuel' q'
    end
end.

Definition drain (q : list task) : list task := pop_all (length q) q.

(** The reading of "ties are broken by insertion order": for each
    priority value, the tasks of that priority leave the queue in the order
    in which they were put. *)
Definition ties_in_insertion_order (tasks out : list task) : Prop :=
  ∀ p : Z, filter (λ t, priority t = p) out = filter (λ t, priority t = p) tasks.

Definition tasks_b_then_a : list task :=
  [(0%Z, ("python3", "pyspark.sql.tests.b")); (0%Z, ("python3", "pyspark.sql.tests.a"))].


(** ** Bytes, text and lines *)

(** A decoded Python [str], as its code points. *)
Definition text : Type := list N.

(** A [str] literal of the source. *)
Definition codepoints (s : string) : text :=
  (λ c, N_of_ascii c) <$> list_ascii_of_string s.

(** Iterating a binary file: the buffer cut after every [b'\n']; every
    line keeps its terminator, the last line may have none. *)
Fixpoint readlines (buf : list Byte.byte) : list (list Byte.byte) :=
  match buf with
  | [] => []
  | b :: buf' =>
      if Byte.eqb b Byte.x0a then [b] :: readlines buf'
      else match readlines buf' with
           | [] => [[b]]
           | l :: ls => (b :: l) :: ls
           end
  end.

(** ** The two regular expressions of the runner *)

Module re.

Inductive regex : Type :=
| Empty
| Eps
| Chr (p : N → bool)
| Cat (r1 r2 : regex)
| Alt (r1 r2 : regex)
| Star (r : regex).

(** The strings a pattern matches as a whole. *)
Inductive matches : regex → text → Prop :=
| matches_eps : matches Eps []
| matches_chr p c : p c = true → matches (Chr p) [c]
| matches_cat r1 r2 s1 s2 :
    matches r1 s1 → matches r2 s2 → matches (Cat r1 r2) (s1 ++ s2)
| matches_alt_l r1 r2 s : matches r1 s → matches (Alt r1 r2) s
| matches_alt_r r1 r2 s : matches r2 s → matches (Alt r1 r2) s
| matches_star_nil r : matches (Star r) []
| matches_star_cons r s1 s2 :
    matches r s1 → matches (Star r) s2 → matches (Star r) (s1 ++ s2).

Fixpoint nullable (r : regex) : bool :=
  match r with
  | Empty => false
  | Eps => true
  | Chr _ => false
  | Cat r1 r2 => nullable r1 && nullable r2
  | Alt r1 r2 => nullable r1 || nullable r2
  | Star _ => true
  end.

Definition cat (r1 r2 : regex) : regex :=
  match r1, r2 with
  | Empty, _ => Empty
  | _, Empty => Empty
  | Eps, _ => r2
  | _, _ => Cat r1 r2
  end.

Definition alt (r1 r2 : regex) : regex :=
  match r1, r2 with
  | Empty, _ => r2
  | _, Empty => r1
  | _, _ => Alt r1 r2
  end.

(** What is left of [r] after reading [c]. *)
Fixpoint deriv (c : N) (r : regex) : regex :=
  match r with
  | Empty => Empty
  | Eps => Empty
  | Chr p => if p c then Eps else Empty
  | Cat r1 r2 =>
      if nullable r1 then alt (cat (deriv c r1) r2) (deriv c r2)
      else cat (deriv c r1) r2
  | Alt r1 r2 => alt (deriv c r1) (deriv c r2)
  | Star r1 => cat (deriv c r1) (Star r1)
  end.

(** [re.match(r, s)] is not [None]: some prefix of [s] matches [r]. *)
Fixpoint match_ (r : regex) (s : text) : bool :=
  nullable r ||
  match s with
  | [] => false
  | c :: s' => match_ (deriv c r) s'
  end.

(** [re.search(r, s)] is not [None]: [r] matches at some position of [s]. *)
Fixpoint search (r : regex) (s : text) : bool :=
  match_ r s ||
  match s with
  | [] => false
  | _ :: s' => search r s'
  end.

(** A run of literal characters. *)
Definition lit (s : string) : regex :=
  foldr (λ c r, Cat (Chr (N.eqb c)) r) Eps (codepoints s).

(** [.]: any character except a newline. *)
Definition dot : regex := Chr (λ c, negb (c =? 10)%N).

(** [[0-9]] *)
Definition digit : regex := Chr (λ c, (48 <=? c)%N && (c <=? 57)%N).

End re.

(** [r'test_.* \(pyspark\..*\) ... (skip|SKIP)'] *)
Definition SKIP_PATTERN : re.regex :=
  re.Cat (re.lit "test_") (re.Cat (re.Star re.dot)
    (re.Cat (re.lit " (pyspark.") (re.Cat (re.Star re.dot)
      (re.Cat (re.lit ") ")
        (re.Cat re.dot (re.Cat re.dot (re.Cat re.dot
          (re.Cat (re.lit " ") (re.Alt (re.lit "skip") (re.lit "SKIP")))))))))).

(** ['[0-9]+'] *)
Definition DIGITS_PATTERN : re.regex := re.Cat re.digit (re.Star re.digit).

(** The pattern as the specification words it: a token starting with
    [test_], a parenthesized dotted identifier starting with [pyspark.],
    the literal [...], then [skip] or [SKIP]. *)
Definition token_char : re.regex :=
  re.Chr (λ c, negb ((c =? 32)%N || ((9 <=? c)%N && (c <=? 13)%N))).

Definition identifier_char : re.regex :=
  re.Chr (λ c, ((48 <=? c)%N && (c <=? 57)%N) || ((65 <=? c)%N && (c <=? 90)%N)
               || ((97 <=? c)%N && (c <=? 122)%N) || (c =? 95)%N || (c =? 46)%N).

Definition SPEC_SKIP_PATTERN : re.regex :=
  re.Cat (re.lit "test_") (re.Cat (re.Star token_char)
    (re.Cat (re.lit " (pyspark.") (re.Cat (re.Star identifier_char)
      (re.Cat (re.lit ") ... ") (re.Alt (re.lit "skip") (re.lit "SKIP")))))).

(** ** The world the script runs in *)

(** Paths are kept as their components; [os.path.join(a, b)] appends one
    component ([uuid4] strings hold no separator). *)
Definition path : Type := list string.
Definition path_join (a : path) (b : string) : path := a ++ [b].
Definition path_str (p : path) : string := String.concat "/" p.

(** The string made of one newline. *)
Definition LF : string := String (ascii_of_nat 10) EmptyString.

(** What the script writes on standard output through [logging]. *)
Inductive message : Type :=
| Running_PySpark_tests
| Will_test_executables (python_execs : list string)
| Will_test_modules (names : list string)
| Will_test_tests (testnames : list string)
| Python_implementation_is (python_exec implementation : string)
| Starting_test (pyspark_python test_name : string)
| Finished_test (pyspark_python test_name : string)
| Finished_test_skipped (pyspark_python test_name : string) (skipped_counts : nat)
| Tests_passed
| Skipped_tests_in (test_name pyspark_python : string)
| Skipped_line (line : text).

Inductive event : Type :=
| Print (s : text)                  (* print(decoded_line, end='') *)
| Print_str (s : string)            (* print(text) *)
| Print_red (s : string)            (* print_red(text) *)
| LOGGER_info (m : message)
| LOGGER_exception (m : string).

(** The two results of [subprocess.Popen(...).wait()] with the child's
    merged stdout and stderr. *)
Inductive popen_outcome : Type :=
| Popen_raises
| Popen_exits (retcode : Z) (per_test_output : list Byte.byte).

(** A module of [sparktestsupport.modules]. *)
Record PyModule : Type := {
  name : string;
  python_test_goals : list string;
  excluded_python_implementations : list string
}.

(** What the script takes from its surroundings: module constants, the
    helpers of [sparktestsupport], the child processes and the codec. *)
Record Host : Type := {
  SPARK_HOME : string;
  SPARK_DIST_CLASSPATH : string;
  script_dir : path;                               (* os.path.dirname(__file__) *)
  os_environ : gmap string string;
  which : string → option string;
  Popen_wait : gmap string (option string) → string → popen_outcome;
  decode : list Byte.byte → text;                  (* line.decode("utf-8", "replace") *)
  all_modules : list PyModule;
  python_implementation : string → option string;
      (* subprocess_check_output([python_exec, "-c", ...]).strip(), or it raises *)
  coverage_installed : string → bool
}.

Record World : Type := {
  (** the directories that exist *)
  dirs : gset path;
  (** the values the next calls of [uuid.uuid4()] return *)
  uuids : list string;
  (** directories that other processes create while a task is being
      prepared, one batch per task, right after its [os.mkdir(tmp_dir)] *)
  concurrent_mkdirs : list (list path);
  (** the contents of [LOG_FILE], if the file exists *)
  log_file : option (list Byte.byte);
  (** standard output, oldest first *)
  console : list event;
  (** the module global [SKIPPED_TESTS]; [None] until the script sets it *)
  SKIPPED_TESTS : option (gmap (string * string) (list text));
  (** for the next input/output operations inside a [try] block: does the
      operation raise; past the end of the list nothing raises *)
  io_faults : list bool;
  (** how many tasks complete before the operator interrupts the run *)
  interrupt_in : option nat
}.

Definition set_dirs (f : gset path → gset path) (w : World) : World :=
  {| dirs := f (dirs w); uuids := uuids w; concurrent_mkdirs := concurrent_mkdirs w;
     log_file := log_file w; console := console w; SKIPPED_TESTS := SKIPPED_TESTS w;
     io_faults := io_faults w; interrupt_in := interrupt_in w |}.

Definition set_uuids (us : list string) (w : World) : World :=
  {| dirs := dirs w; uuids := us; concurrent_mkdirs := concurrent_mkdirs w;
     log_file := log_file w; console := console w; SKIPPED_TESTS := SKIPPED_TESTS w;
     io_faults := io_faults w; interrupt_in := interrupt_in w |}.

Definition set_concurrent_mkdirs (c : list (list path)) (w : World) : World :=
  {| dirs := dirs w; uuids := uuids w; concurrent_mkdirs := c;
     log_file := log_file w; console := console w; SKIPPED_TESTS := SKIPPED_TESTS w;
     io_faults := io_faults w; interrupt_in := interrupt_in w |}.

Definition set_log_file (l : option (list Byte.byte)) (w : World) : World :=
  {| dirs := dirs w; uuids := uuids w; concurrent_mkdirs := concurrent_mkdirs w;
     log_file := l; console := console w; SKIPPED_TESTS := SKIPPED_TESTS w;
     io_faults := io_faults w; interrupt_in := interrupt_in w |}.

Definition emit (e : event) (w : World) : World :=
  {| dirs := dirs w; uuids := uuids w; concurrent_mkdirs := concurrent_mkdirs w;
     log_file := log_file w; console := console w ++ [e]; SKIPPED_TESTS := SKIPPED_TESTS w;
     io_faults := io_faults w; interrupt_in := interrupt_in w |}.

Definition set_SKIPPED_TESTS (m : option (gmap (string * string) (list text)))
    (w : World) : World :=
  {| dirs := dirs w; uuids := uuids w; concurrent_mkdirs := concurrent_mkdirs w;
     log_file := log_file w; console := console w; SKIPPED_TESTS := m;
     io_faults := io_faults w; interrupt_in := interrupt_in w |}.

Definition set_io_faults (fs : list bool) (w : World) : World :=
  {| dirs := dirs w; uuids := uuids w; concurrent_mkdirs := concurrent_mkdirs w;
     log_file := log_file w; console := console w; SKIPPED_TESTS := SKIPPED_TESTS w;
     io_faults := fs; interrupt_in := interrupt_in w |}.

Definition set_interrupt_in (n : option nat) (w : World) : World :=
  {| dirs := dirs w; uuids := uuids w; concurrent_mkdirs := concurrent_mkdirs w;
     log_file := log_file w; console := console w; SKIPPED_TESTS := SKIPPED_TESTS w;
     io_faults := io_faults w; interrupt_in := n |}.

(** *** Statements that may raise *)

Inductive outcome (A : Type) : Type :=
| Ok (a : A) (w : World)
| Raised (w : World).
Arguments Ok {A} a w.
Arguments Raised {A} w.

Definition IO (A : Type) : Type := World → outcome A.

#[global] Instance IO_ret : MRet IO := λ A a w, Ok a w.
#[global] Instance IO_bind : MBind IO := λ A B f m w,
  match m w with
  | Ok a w' => f a w'
  | Raised w' => Raised w'
  end.

Definition raise {A : Type} : IO A := λ w, Raised w.

(** A statement that only changes the world. *)
Definition exec (f : World → World) : IO unit := λ w, Ok () (f w).

(** An input/output operation inside a [try] block. *)
Definition io_fault : IO unit := λ w,
  match io_faults w with
  | [] => Ok () w
  | true :: fs => Raised (set_io_faults fs w)
  | false :: fs => Ok () (set_io_faults fs w)
  end.

(** How a call of a function of the script ends. *)
Inductive result : Type :=
| Returns (w : World)
| Exits (status : Z) (w : World)      (* os._exit(status), sys.exit(status) *)
| Hangs.                              (* a [while] loop that never ends *)

(** The status the process ends with. *)
Definition exit_status (r : result) : option Z :=
  match r with
  | Returns _ => Some 0%Z
  | Exits status _ => Some status
  | Hangs => None
  end.

Definition final_world (r : result) : option World :=
  match r with
  | Returns w => Some w
  | Exits _ w => Some w
  | Hangs => None
  end.

(** *** The file system *)

Definition isdir (p : path) (w : World) : bool := bool_decide (p ∈ dirs w).

(** [os.mkdir(p)]; both calls of the runner come after a loop that left
    [p] not a directory. *)
Definition mkdir (p : path) (w : World) : World := set_dirs (λ ds, {[p]} ∪ ds) w.

(** [shutil.rmtree(p, ignore_errors=True)], [rm -rf p] on Darwin. *)
Definition rmtree (p : path) (w : World) : World :=
  set_dirs (filter (λ q, ¬ p `prefix_of` q)) w.

(** The next batch of directories made by other processes appears. *)
Definition others_mkdir (w : World) : World :=
  match concurrent_mkdirs w with
  | [] => w
  | batch :: rest =>
      set_concurrent_mkdirs rest (set_dirs (λ ds, list_to_set batch ∪ ds) w)
  end.

(** ** [run_individual_python_test] *)

Section runner.
Variable host : Host.

Definition LOG_FILE_name : string := String.append (SPARK_HOME host) "/python/unit-tests.log".

(** Lines 69-78: [env = dict(os.environ); env.update({...})]. *)
Definition initial_env (pyspark_python : string) : gmap string (option string) :=
  list_to_map
    [("SPARK_DIST_CLASSPATH", Some (SPARK_DIST_CLASSPATH host));
     ("SPARK_TESTING", Some "1");
     ("SPARK_PREPEND_CLASSES", Some "1");
     ("PYSPARK_PYTHON", which host pyspark_python);
     ("PYSPARK_DRIVER_PYTHON", which host pyspark_python);
     ("PYARROW_IGNORE_TIMEZONE", Some "1")]
  ∪ (Some <$> os_environ host).

(** Lines 82-84: [while os.path.isdir(tmp_dir): tmp_dir =
    os.path.join(target_dir, str(uuid.uuid4()))].  [None]: the loop has
    used up every value of [uuid4] without leaving. *)
Fixpoint retry_tmp_dir (ds : gset path) (target_dir tmp_dir : path)
    (us : list string) : option (path * list string) :=
  if decide (tmp_dir ∈ ds) then
    match us with
    | [] => None
    | u :: us' => retry_tmp_dir ds target_dir (path_join target_dir u) us'
    end
  else Some (tmp_dir, us).

(** Lines 88-89: [while os.path.isdir(metastore_dir): metastore_dir =
    os.path.join(metastore_dir, str(uuid.uuid4()))]. *)
Fixpoint retry_metastore_dir (ds : gset path) (metastore_dir : path)
    (us : list string) : option (path * list string) :=
  if decide (metastore_dir ∈ ds) then
    match us with
    | [] => None
    | u :: us' => retry_metastore_dir ds (path_join metastore_dir u) us'
    end
  else Some (metastore_dir, us).

(** Lines 82-85. *)
Definition make_tmp_dir (target_dir : path) (w : World) : option (path * World) :=
  match uuids w with
  | [] => None
  | u :: us =>
      match retry_tmp_dir (dirs w) target_dir (path_join target_dir u) us with
      | None => None
      | Some (tmp_dir, us') => Some (tmp_dir, mkdir tmp_dir (set_uuids us' w))
      end
  end.

(** Lines 87-90. *)
Definition make_metastore_dir (tmp_dir : path) (w : World) : option (path * World) :=
  match uuids w with
  | [] => None
  | u :: us =>
      match retry_metastore_dir (dirs w) (path_join tmp_dir u) us with
      | None => None
      | Some (metastore_dir, us') =>
          Some (metastore_dir, mkdir metastore_dir (set_uuids us' w))
      end
  end.

(** Lines 93-100. *)
Definition java_options (tmp_dir : path) : string :=
  String.concat EmptyString
    ["-Djava.io.tmpdir="; path_str tmp_dir; " -Dio.netty.tryReflectionSetAccessible=true"].

Definition spark_args (tmp_dir metastore_dir : path) : list string :=
  ["--conf";
   String.concat EmptyString ["spark.driver.extraJavaOptions='"; java_options tmp_dir; "'"];
   "--conf";
   String.concat EmptyString ["spark.executor.extraJavaOptions='"; java_options tmp_dir; "'"];
   "--conf";
   String.concat EmptyString ["spark.sql.warehouse.dir='"; path_str metastore_dir; "'"];
   "pyspark-shell"].

(** Lines 69-100: the environment of the child and its two directories. *)
Definition prepare (target_dir : path) (pyspark_python : string) (w : World)
    : option (gmap string (option string) * path * path * World) :=
  let env := initial_env pyspark_python in
  match make_tmp_dir target_dir w with
  | None => None
  | Some (tmp_dir, w1) =>
      let env1 := <["TMPDIR" := Some (path_str tmp_dir)]> env in
      match make_metastore_dir tmp_dir (others_mkdir w1) with
      | None => None
      | Some (metastore_dir, w2) =>
          let env2 :=
            <["PYSPARK_SUBMIT_ARGS" :=
                Some (String.concat " " (spark_args tmp_dir metastore_dir))]> env1 in
          Some (env2, tmp_dir, metastore_dir, w2)
      end
  end.

(** Lines 105-114, the body of the first [try]. *)
Definition spawn (env : gmap string (option string)) (test_name : string)
    (tmp_dir : path) : IO (Z * list Byte.byte) :=
  io_fault ;;                                       (* tempfile.TemporaryFile() *)
  match Popen_wait host env test_name with
  | Popen_raises => raise
  | Popen_exits retcode per_test_output =>
      exec (rmtree tmp_dir) ;; mret (retcode, per_test_output)
  end.

(** Lines 125-127: the log is opened for appending and every line of the
    buffer, read from its start, is written to it. *)
Definition append_to_log (per_test_output : list Byte.byte) : IO unit :=
  io_fault ;;                                       (* open(LOG_FILE, 'ab') *)
  io_fault ;;                                       (* log_file.writelines(...) *)
  exec (λ w, set_log_file
               (Some (default [] (log_file w) ++ concat (readlines per_test_output))) w).

(** Lines 129-132. *)
Fixpoint echo_lines (lines : list (list Byte.byte)) : IO unit :=
  match lines with
  | [] => mret ()
  | line :: lines' =>
      let decoded_line := decode host line in
      if re.match_ DIGITS_PATTERN decoded_line then echo_lines lines'
      else io_fault ;; exec (emit (Print decoded_line)) ;; echo_lines lines'
  end.

Definition had_test_failures (test_name pyspark_python : string) : string :=
  String.concat EmptyString
    [LF; "Had test failures in "; test_name; " with "; pyspark_python; "; see logs."].

(** Lines 123-140: [try] ... [except] ... [finally]. *)
Definition report_failure (test_name pyspark_python : string)
    (per_test_output : list Byte.byte) (w : World) : result :=
  let w1 :=
    match (append_to_log per_test_output ;; echo_lines (readlines per_test_output)) w with
    | Ok _ w' => w'
    | Raised w' =>
        emit (LOGGER_exception "Got an exception while trying to print failed test output") w'
    end in
  Exits (-1) (emit (Print_red (had_test_failures test_name pyspark_python)) w1).

(** Line 149: the filter of [skipped_tests]. *)
Definition is_skipped_line (line : text) : bool := re.search SKIP_PATTERN line.

(** Lines 147-150. *)
Definition find_skipped_tests (per_test_output : list Byte.byte) : list text :=
  filter (λ line, is_skipped_line line = true) (decode host <$> readlines per_test_output).

(** Lines 153-155: [assert SKIPPED_TESTS is not None; SKIPPED_TESTS[key] =
    skipped_tests], a write through the manager's proxy. *)
Definition store_skipped_tests (key : string * string) (skipped_tests : list text)
    : IO unit := λ w,
  match SKIPPED_TESTS w with
  | None => Raised w
  | Some registry =>
      (io_fault ;; exec (set_SKIPPED_TESTS (Some (<[key := skipped_tests]> registry)))) w
  end.

(** Lines 144-156, the body of the last [try]. *)
Definition record_skipped_tests (test_name pyspark_python : string)
    (per_test_output : list Byte.byte) : IO nat :=
  let skipped_tests := find_skipped_tests per_test_output in
  let skipped_counts := length skipped_tests in
  (if decide (0 < skipped_counts)
   then store_skipped_tests (pyspark_python, test_name) skipped_tests
   else mret ()) ;;
  mret skipped_counts.

(** Lines 141-170. *)
Definition finish_test (test_name pyspark_python : string)
    (per_test_output : list Byte.byte) (w : World) : result :=
  match record_skipped_tests test_name pyspark_python per_test_output w with
  | Raised w' =>
      Exits (-1) (emit (Print_red (String.append LF
        "Got an exception while trying to store skipped test output")) w')
  | Ok skipped_counts w' =>
      if decide (skipped_counts ≠ 0)
      then Returns (emit (LOGGER_info
                      (Finished_test_skipped pyspark_python test_name skipped_counts)) w')
      else Returns (emit (LOGGER_info (Finished_test pyspark_python test_name)) w')
  end.

Definition run_individual_python_test (target_dir : path)
    (test_name pyspark_python : string) (w : World) : result :=
  match prepare target_dir pyspark_python w with
  | None => Hangs
  | Some (env, tmp_dir, metastore_dir, w1) =>
      let w2 := emit (LOGGER_info (Starting_test pyspark_python test_name)) w1 in
      match spawn env test_name tmp_dir w2 with
      | Raised w3 =>
          Exits 1 (emit (LOGGER_exception "Got exception while running") w3)
      | Ok (retcode, per_test_output) w3 =>
          if decide (retcode ≠ 0%Z)
          then report_failure test_name pyspark_python per_test_output w3
          else finish_test test_name pyspark_python per_test_output w3
      end
  end.

End runner.

(** ** [main] *)

(** The parsed command line, its comma-separated lists already split. *)
Record Options : Type := {
  python_executables : list string;
  modules : list string;
  testnames : option (list string);
  parallelism : nat;
  verbose : bool
}.

Section script.
Variable host : Host.

(** Line 45: [dict((m.name, m) for m in all_modules if m.python_test_goals
    if m.name != 'root')]; a later module replaces an earlier one of the
    same name. *)
Definition python_modules : gmap string PyModule :=
  list_to_map (reverse ((λ m, (name m, m)) <$>
    filter (λ m, python_test_goals m ≠ [] ∧ name m ≠ "root") (all_modules host))).

(** Lines 257-264; [inl] is the name that is not a module. *)
Fixpoint modules_to_test (module_names : list string) : string + list PyModule :=
  match module_names with
  | [] => inr []
  | module_name :: rest =>
      match python_modules !! module_name with
      | None => inl module_name
      | Some m =>
          match modules_to_test rest with
          | inl bad => inl bad
          | inr ms => inr (m :: ms)
          end
      end
  end.

Definition heavy_tests : list string :=
  ["pyspark.streaming.tests"; "pyspark.mllib.tests"; "pyspark.tests";
   "pyspark.sql.tests"; "pyspark.ml.tests"].

(** Lines 287-292. *)
Definition goal_priority (test_goal : string) : Z :=
  if existsb (λ prefix, String.prefix prefix test_goal) heavy_tests then 0%Z else 100%Z.

(** Lines 283-296: the entries one executable adds to the queue, in the
    order of the [put]s. *)
Definition tasks_of_exec (work : list PyModule + list string)
    (python_exec implementation : string) : list task :=
  match work with
  | inl mods =>
      m ← filter (λ m, implementation ∉ excluded_python_implementations m) mods;
      (λ test_goal, (goal_priority test_goal, (python_exec, test_goal)))
        <$> python_test_goals m
  | inr testnames_to_test =>
      (λ test_goal, (0%Z, (python_exec, test_goal))) <$> testnames_to_test
  end.

(** Lines 270-296: the loop over the executables.  [inr] is an exit
    before any task has run. *)
Fixpoint fill_queue (work : list PyModule + list string) (python_execs : list string)
    (task_queue : list task) (w : World) : (list task * World) + (Z * World) :=
  match python_execs with
  | [] => inl (task_queue, w)
  | python_exec :: rest =>
      if bool_decide (is_Some (os_environ host !! "COVERAGE_PROCESS_START"))
         && negb (coverage_installed host python_exec)
      then inr ((-1)%Z, emit (Print_red "Coverage is not installed") w)
      else
        match python_implementation host python_exec with
        | None => inr (1%Z, w)      (* subprocess_check_output raised *)
        | Some implementation =>
            let w1 := emit (LOGGER_info
                        (Python_implementation_is python_exec implementation)) w in
            fill_queue work rest
              (foldl PriorityQueue.put task_queue
                 (tasks_of_exec work python_exec implementation)) w1
        end
  end.

(** Lines 303-312 with the [task_queue.join()] of lines 319-323: one
    worker takes the tasks one after the other; the main thread waits in
    [join] as long as a task is unfinished, and an interrupt of the
    operator reaches it there. *)
Fixpoint process_queue (fuel : nat) (target_dir : path) (task_queue : list task)
    (w : World) : result :=
  match fuel with
  | O => Hangs
  | S fuel' =>
      match PriorityQueue.get_nowait task_queue with
      | None => Returns w
      | Some ((_, (python_exec, test_goal)), task_queue') =>
          match interrupt_in w with
          | Some O => Exits (-1) (emit (Print_red "Exiting due to interrupt") w)
          | _ =>
              match run_individual_python_test host target_dir test_goal python_exec
                      (set_interrupt_in (Nat.pred <$> interrupt_in w) w) with
              | Returns w' => process_queue fuel' target_dir task_queue' w'
              | r => r
              end
          end
      end
  end.

(** Python's [<] on the keys of [SKIPPED_TESTS], as a decidable order for
    [sorted]. *)
Definition key_le (a b : (string * string) * list text) : Prop := pair_le a.1 b.1.

#[global] Instance key_le_dec a b : Decision (key_le a b).
Proof. unfold key_le, pair_le. apply _. Defined.

(** Lines 327-331. *)
Definition report_skipped (registry : gmap (string * string) (list text))
    (w : World) : World :=
  foldl (λ w' item,
           let '((pyspark_python, test_name), lines) := item in
           foldl (λ w'' line, emit (LOGGER_info (Skipped_line line)) w'')
                 (emit (LOGGER_info (Skipped_tests_in test_name pyspark_python)) w')
                 lines)
        w (merge_sort key_le (map_to_list registry)).

(** Lines 248 and 256-268: the modules to test, or the test names when
    [--testnames] is given; [inl] is a module name that is not known. *)
Definition work_to_do (opts : Options) : string + (list PyModule + list string) :=
  match testnames opts with
  | None =>
      match modules_to_test (modules opts) with
      | inl bad => inl bad
      | inr mods => inr (inl mods)
      end
  | Some testnames_to_test => inr (inr testnames_to_test)
  end.

(** The entries that lines 270-296 put into the queue, in the order of
    the [put]s. *)
Definition queued_tasks (opts : Options) : list task :=
  match work_to_do opts with
  | inl _ => []
  | inr work =>
      python_exec ← python_executables opts;
      match python_implementation host python_exec with
      | None => []
      | Some implementation => tasks_of_exec work python_exec implementation
      end
  end.

(** Lines 243-331, from the parsed options on. *)
Definition main (opts : Options) (w : World) : result :=
  let w := emit (LOGGER_info Running_PySpark_tests) w in
  let w := set_log_file None w in          (* if os.path.exists(LOG_FILE): os.remove(LOG_FILE) *)
  let w := emit (LOGGER_info (Will_test_executables (python_executables opts))) w in
  match work_to_do opts with
  | inl module_name =>
      Exits (-1) (emit (Print_str (String.concat EmptyString
                     ["Error: unrecognized module '"; module_name; "'"])) w)
  | inr work =>
      let w := emit (LOGGER_info
                 match work with
                 | inl mods => Will_test_modules (name <$> mods)
                 | inr testnames_to_test => Will_test_tests testnames_to_test
                 end) w in
      match fill_queue work (python_executables opts) [] w with
      | inr (status, w) => Exits status w
      | inl (task_queue, w) =>
          let target_dir := path_join (script_dir host) "target" in
          let w := if isdir target_dir w then w else mkdir target_dir w in
          match process_queue (S (length task_queue)) target_dir task_queue w with
          | Returns w =>
              let w := emit (LOGGER_info Tests_passed) w in
              match SKIPPED_TESTS w with
              | None => Exits 1 w            (* SKIPPED_TESTS.items() on None *)
              | Some registry => Returns (report_skipped registry w)
              end
          | r => r
          end
      end
  end.

(** Lines 334-336. *)
Definition script (opts : Options) (w : World) : result :=
  main opts (set_SKIPPED_TESTS (Some ∅) w).

End script.

(** ** Vocabulary of the statements *)

(** "Begins with one or more decimal digits". *)
Definition begins_with_digit (line : text) : bool :=
  match line with
  | d :: _ => (48 <=? d)%N && (d <=? 57)%N
  | [] => false
  end.

(** The lines of a buffer that the failure reporter prints. *)
Definition echoed (host : Host) (per_test_output : list Byte.byte) : list text :=
  filter (λ line, begins_with_digit line = false)
    (decode host <$> readlines per_test_output).

Definition emit_all (es : list event) (w : World) : World :=
  foldl (λ w' e, emit e w') w es.

(** What the child of a task does, once its directories are made. *)
Definition subprocess_outcome (host : Host) (target_dir : path)
    (test_name pyspark_python : string) (w : World) : option popen_outcome :=
  match prepare host target_dir pyspark_python w with
  | None => None
  | Some (env, _, _, _) => Some (Popen_wait host env test_name)
  end.

(** The world in which the outcome of the child is classified: the
    directories are made, the start is logged, the child has ended and
    its working directory is removed. *)
Definition after_spawn (pyspark_python test_name : string) (tmp_dir : path)
    (w1 : World) : World :=
  rmtree tmp_dir
    (set_io_faults (tail (io_faults w1))
       (emit (LOGGER_info (Starting_test pyspark_python test_name)) w1)).

(** A statement, or a call, keeps a relation between the world before
    and the world after, however it ends. *)
Definition io_respects (P : World → World → Prop) {A : Type} (m : IO A) : Prop :=
  ∀ w, match m w with
       | Ok _ w' => P w w'
       | Raised w' => P w w'
       end.

Definition result_respects (P : World → World → Prop) (w : World) (r : result) : Prop :=
  match r with
  | Returns w' => P w w'
  | Exits _ w' => P w w'
  | Hangs => True
  end.

(** The keys that lines 70-100 set in the environment of the child. *)
Definition overridden_keys : list string :=
  ["SPARK_DIST_CLASSPATH"; "SPARK_TESTING"; "SPARK_PREPEND_CLASSES"; "PYSPARK_PYTHON";
   "PYSPARK_DRIVER_PYTHON"; "PYARROW_IGNORE_TIMEZONE"; "TMPDIR"; "PYSPARK_SUBMIT_ARGS"].


(** ** A small host and world for the examples *)

(** A codec that agrees with UTF-8 on ASCII bytes. *)
Definition decode_ascii (bs : list Byte.byte) : text :=
  (λ b, N.of_nat (Byte.to_nat b)) <$> bs.

Definition example_host (child : string → popen_outcome) : Host :=
  {| SPARK_HOME := "/spark";
     SPARK_DIST_CLASSPATH := "/spark/assembly/target/scala-2.12/jars/*";
     script_dir := ["spark"; "python"];
     os_environ := {["HOME" := "/root"]};
     which := λ x, Some (String.append "/usr/bin/" x);
     Popen_wait := λ _ test_name, child test_name;
     decode := decode_ascii;
     all_modules := [];
     python_implementation := λ _, Some "CPython";
     coverage_installed := λ _, true |}.

Definition example_target_dir : path := ["spark"; "python"; "target"].

Definition example_world : World :=
  {| dirs := {[example_target_dir]};
     uuids := ["u1"; "u2"; "u3"; "u4"; "u5"; "u6"];
     concurrent_mkdirs := [];
     log_file := None;
     console := [];
     SKIPPED_TESTS := Some ∅;
     io_faults := [];
     interrupt_in := None |}.

Definition example_options (names : list string) : Options :=
  {| python_executables := ["python3"];
     modules := [];
     testnames := Some names;
     parallelism := 1;
     verbose := false |}.

(** The children of the examples: one fails, one skips a test. *)
Definition failing_output : list Byte.byte :=
  list_byte_of_string
    (String.concat LF ["21/01/01 12:00:00 INFO noise"; "FAIL: test_x"; "Ran 1 test"]).

Definition failing_child (test_name : string) : popen_outcome :=
  Popen_exits 1 failing_output.

Definition skipping_output : list Byte.byte :=
  list_byte_of_string
    (String.concat LF ["test_a (pyspark.b) ... skipped 'no pandas'";
                       "test_c (pyspark.b) ... ok"; EmptyString]).

Definition skipping_child (test_name : string) : popen_outcome :=
  Popen_exits 0 skipping_output.

(** The log holds nothing, or the output of one failed child of this run. *)
Definition log_of_this_run (host : Host) (w : World) : Prop :=
  log_file w = None ∨
  ∃ env test_name retcode out,
    Popen_wait host env test_name = Popen_exits retcode out ∧ retcode ≠ 0%Z ∧
    log_file w = Some out.

Definition same_log (w w' : World) : Prop := log_file w' = log_file w.


(** A world in which another process makes [target/u1/u2] right after
    this task has made its working directory [target/u1]. *)
Definition racing_world : World :=
  set_concurrent_mkdirs [[example_target_dir ++ ["u1"; "u2"]]] example_world.

Definition got_exception_storing : string :=
  String.append LF "Got an exception while trying to store skipped test output".


(** The directories are the same before and after. *)
Definition same_dirs (w w' : World) : Prop := dirs w' = dirs w.

(** The registry is the same before and after. *)
Definition same_registry (w w' : World) : Prop := SKIPPED_TESTS w' = SKIPPED_TESTS w.

(** ** More of the script *)

(** The truth value of what [which] returns: [None] and the empty string
    are false. *)
Definition truthy (o : option string) : bool :=
  match o with
  | Some (String _ _) => true
  | _ => false
  end.

(** Lines 173-183.  [inr msg] is [LOGGER.error(msg)] followed by
    [os._exit(1)]. *)
Definition get_default_python_executables (host : Host) : list string + string :=
  let python_execs := filter (λ x, truthy (which host x) = true) ["python3.6"; "pypy3"] in
  if bool_decide ("python3.6" ∉ python_execs) then
    match which host "python3" with
    | Some (String a p) => inl (String a p :: python_execs)
    | _ => inr "No python3 executable found.  Exiting!"
    end
  else inl python_execs.

(** The worker loop over a list of tasks already taken from the queue. *)
Fixpoint run_tasks (host : Host) (target_dir : path) (ts : list task) (w : World)
    : result :=
  match ts with
  | [] => Returns w
  | (_, (python_exec, test_goal)) :: ts' =>
      match interrupt_in w with
      | Some O => Exits (-1) (emit (Print_red "Exiting due to interrupt") w)
      | _ =>
          match run_individual_python_test host target_dir test_goal python_exec
                  (set_interrupt_in (Nat.pred <$> interrupt_in w) w) with
          | Returns w' => run_tasks host target_dir ts' w'
          | r => r
          end
      end
  end.

(** The tasks whose start is on the console, oldest first. *)
Definition started (c : list event) : list (string * string) :=
  omap (λ e, match e with
             | LOGGER_info (Starting_test pyspark_python test_name) =>
                 Some (pyspark_python, test_name)
             | _ => None
             end) c.

(** The registry, if set, holds only entries of the given keys, none of
    them empty, made of lines that pass the skip filter. *)
Definition registry_ok (keys : list (string * string)) (w : World) : Prop :=
  ∀ registry key lines,
    SKIPPED_TESTS w = Some registry → registry !! key = Some lines →
    key ∈ keys ∧ lines ≠ [] ∧ Forall (λ line, is_skipped_line line = true) lines.

(** The console lines of one entry of the final report. *)
Definition report_of_item (item : (string * string) * list text) : list event :=
  LOGGER_info (Skipped_tests_in item.1.2 item.1.1)
    :: ((λ line, LOGGER_info (Skipped_line line)) <$> item.2).

(** A module with one heavy and one light goal, for the examples. *)
Definition example_module : PyModule :=
  {| name := "pyspark-sql";
     python_test_goals := ["pyspark.sql.functions"; "pyspark.sql.tests.test_udf"];
     excluded_python_implementations := ["PyPy"] |}.

(** The same tasks have their start on the console before and after. *)
Definition same_started (w w' : World) : Prop :=
  started (console w') = started (console w).

(** A host where COVERAGE_PROCESS_START is set and no executable has the
    coverage package. *)
Definition host_without_coverage : Host :=
  {| SPARK_HOME := "/spark"; SPARK_DIST_CLASSPATH := "/spark/jars/*";
     script_dir := ["spark"; "python"];
     os_environ := {["COVERAGE_PROCESS_START" := "/spark/.coveragerc"]};
     which := λ _, None;
     Popen_wait := λ _ _, Popen_raises;
     decode := decode_ascii;
     all_modules := [];
     python_implementation := λ _, Some "CPython";
     coverage_installed := λ _, false |}.

(** * Facts *)

(** ** The heap discipline of [heapq] *)

Module heapq_facts.
Import heapq.
Section heap_facts.
Context {A : Type}.
Variable lt : A → A → bool.
Hypothesis lt_irrefl : ∀ a, lt a a = false.
Hypothesis lt_trans : ∀ a b c, lt a b = true → lt b c = true → lt a c = true.
Hypothesis lt_total : ∀ a b, lt a b = false → lt b a = false → a = b.

Local Abbreviation le := (heapq.le lt).
Local Abbreviation edge_ok := (heapq.edge_ok lt).
Local Abbreviation heap_ordered := (heapq.heap_ordered lt).
Local Abbreviation up_inv := (heapq.up_inv lt).
Local Abbreviation down_inv := (heapq.down_inv lt).

Lemma le_refl a : le a a.
Proof. apply lt_irrefl. Qed.

Lemma le_trans a b c : le a b → le b c → le a c.
Proof.
  unfold heapq.le. intros Hab Hbc.
  destruct (lt c a) eqn:Hca; [|done].
  destruct (lt a b) eqn:Hab'.
  - by rewrite (lt_trans _ _ _ Hca Hab') in Hbc.
  - assert (a = b) as -> by by apply lt_total. congruence.
Qed.

Lemma lt_le a b : lt a b = true → le a b.
Proof.
  unfold heapq.le. intros Hab. destruct (lt b a) eqn:Hba; [|done].
  pose proof (lt_trans _ _ _ Hab Hba) as Haa. by rewrite lt_irrefl in Haa.
Qed.

Lemma parent_cases (j : nat) :
  0 < j → j = 2 * parent j + 1 ∨ j = 2 * parent j + 2.
Proof.
  intros Hj. unfold parent.
  pose proof (Nat.div_mod_eq (j - 1) 2).
  pose proof (Nat.mod_upper_bound (j - 1) 2). lia.
Qed.

Lemma parent_child_l (i : nat) : parent (2 * i + 1) = i.
Proof.
  unfold parent. replace (2 * i + 1 - 1) with (i * 2) by lia.
  apply Nat.div_mul. lia.
Qed.

Lemma parent_child_r (i : nat) : parent (2 * i + 2) = i.
Proof.
  unfold parent. replace (2 * i + 2 - 1) with (1 + i * 2) by lia.
  rewrite Nat.div_add by lia. reflexivity.
Qed.

Lemma parent_inv (c i : nat) : 0 < c → parent c = i → c = 2 * i + 1 ∨ c = 2 * i + 2.
Proof. intros Hc <-. by apply parent_cases. Qed.

Lemma up_inv_ext f g pos : (∀ k, f k = g k) → up_inv f pos → up_inv g pos.
Proof.
  intros E [H1 H2]. split.
  - intros j Hj Hne x y. rewrite <- !E. by apply H1.
  - intros Hp c x y Hc Hpc. rewrite <- !E. by apply H2.
Qed.

Lemma up_inv_step f pos n p :
  0 < pos → up_inv f pos → f pos = Some n → f (parent pos) = Some p →
  lt n p = true → up_inv (swapf f pos (parent pos)) (parent pos).
Proof.
  intros Hpos [Hedge Hgrand] Hn Hp Hlt.
  pose proof (parent_cases pos Hpos) as Hpp.
  split.
  - intros j Hj Hne x y. unfold swapf.
    pose proof (parent_cases j Hj) as Hpj.
    destruct (decide (j = pos)) as [->|Hjpos].
    + rewrite decide_False by lia. rewrite decide_True by done.
      rewrite Hn, Hp. intros [= <-] [= <-]. by apply lt_le.
    + rewrite (decide_False (P := j = parent pos)) by done.
      destruct (decide (parent j = pos)) as [Hpar|Hpar].
      * rewrite Hp. intros [= <-] Hy.
        destruct (decide (pos = 0)) as [->|]; [lia|].
        eapply (Hgrand Hpos j); eauto.
      * destruct (decide (parent j = parent pos)) as [Hsib|Hsib].
        -- rewrite Hn. intros [= <-] Hy.
           apply le_trans with p; [by apply lt_le|].
           eapply (Hedge j); eauto. by rewrite Hsib.
        -- intros Hx Hy. eapply (Hedge j); eauto.
  - intros Hpp0 c x y Hc Hpc. unfold swapf.
    pose proof (parent_cases _ Hpp0) as Hppp.
    pose proof (parent_cases c Hc) as Hcc.
    rewrite (decide_False (P := parent (parent pos) = pos)) by lia.
    rewrite (decide_False (P := parent (parent pos) = parent pos)) by lia.
    intros Hx.
    assert (le x p) as Hxp by (eapply (Hedge (parent pos)); eauto; lia).
    destruct (decide (c = pos)) as [->|Hcpos].
    + rewrite Hp. intros [= <-]. done.
    + rewrite decide_False by lia. intros Hy.
      apply le_trans with p; [done|].
      eapply (Hedge c); eauto. by rewrite Hpc.
Qed.

Lemma up_inv_done f pos :
  up_inv f pos → pos = 0 ∨ edge_ok f pos → ∀ j, 0 < j → edge_ok f j.
Proof.
  intros [Hedge _] Hpos j Hj.
  destruct (decide (j = pos)) as [->|Hne]; [|by apply Hedge].
  destruct Hpos as [->|?]; [lia|done].
Qed.

Ltac norm_lookup :=
  repeat first
    [ rewrite list_lookup_insert_eq by (rewrite ?length_insert; lia)
    | rewrite list_lookup_insert_ne by lia ].

Lemma smaller_child_spec (h : list A) (pos : nat) :
  2 * pos + 1 < length h →
  let c := smaller_child lt h (2 * pos + 1) in
  (c = 2 * pos + 1 ∨ c = 2 * pos + 2) ∧ c < length h ∧
  ∀ s sv cv, s = 2 * pos + 1 ∨ s = 2 * pos + 2 →
    h !! s = Some sv → h !! c = Some cv → le cv sv.
Proof.
  intros Hlen. unfold smaller_child.
  destruct (lookup_lt_is_Some_2 h (2 * pos + 1) Hlen) as [l Hl]. rewrite Hl.
  replace (2 * pos + 2) with (2 * pos + 1 + 1) by lia.
  destruct (h !! (2 * pos + 1 + 1)) as [r|] eqn:Hr.
  - destruct (lt l r) eqn:Hlr.
    + split; [by left|]. split; [done|].
      intros s sv cv [->| ->] Hs Hc; simplify_eq; [apply le_refl | by apply lt_le].
    + split; [by right|]. split; [by eapply lookup_lt_Some|].
      intros s sv cv [->| ->] Hs Hc; simplify_eq; [done | apply le_refl].
  - split; [by left|]. split; [done|].
    intros s sv cv [->| ->] Hs Hc; simplify_eq. apply le_refl.
Qed.

Lemma down_inv_step (h : list A) (pos c : nat) (cv : A) :
  2 * pos + 1 < length h →
  down_inv (λ k, h !! k) pos →
  smaller_child lt h (2 * pos + 1) = c → h !! c = Some cv →
  down_inv (λ k, <[pos := cv]> h !! k) c.
Proof.
  intros Hlen [Hedge Hgrand] Hc Hcv.
  destruct (smaller_child_spec h pos Hlen) as (Hcc & Hclen & Hmin).
  rewrite Hc in Hcc, Hclen, Hmin.
  assert (parent c = pos) as Hpc
    by (destruct Hcc as [->| ->]; [apply parent_child_l | apply parent_child_r]).
  split.
  - intros j Hj Hjc Hpjc x y. simpl.
    pose proof (parent_cases j Hj) as Hpj.
    destruct (decide (j = pos)) as [->|Hjpos].
    + rewrite list_lookup_insert_ne by lia.
      rewrite list_lookup_insert_eq by lia. intros Hx [= <-].
      eapply (Hgrand Hj c); eauto. lia.
    + rewrite (list_lookup_insert_ne _ pos j) by done.
      destruct (decide (parent j = pos)) as [Hpar|Hpar].
      * rewrite Hpar. rewrite list_lookup_insert_eq by lia. intros [= <-] Hy.
        eapply (Hmin j); eauto. rewrite <- Hpar. lia.
      * rewrite list_lookup_insert_ne by done. intros Hx Hy.
        eapply (Hedge j); eauto.
  - intros Hc0 d x y Hd Hpd. simpl. rewrite Hpc.
    pose proof (parent_cases d Hd) as Hdd.
    rewrite list_lookup_insert_eq by lia. intros [= <-].
    rewrite list_lookup_insert_ne by lia. intros Hy.
    eapply (Hedge d); eauto; simpl; [lia|lia|by rewrite Hpd].
Qed.

Lemma insert_Permutation (l : list A) (j : nat) (y : A) :
  j < length l → <[j := y]> l ≡ₚ y :: delete j l.
Proof.
  revert j. induction l as [|a l IH]; intros [|j] Hj; simpl in *; try lia.
  - done.
  - rewrite (IH j) by lia. apply Permutation_swap.
Qed.

Lemma insert_swap_Permutation (h : list A) (i j : nat) (n p : A) :
  h !! i = Some p → i ≠ j → j < length h →
  <[i := n]> (<[j := p]> h) ≡ₚ <[j := n]> h.
Proof.
  intros Hi Hne Hj.
  assert (i < length h) as Hilen by by eapply lookup_lt_Some.
  rewrite (insert_Permutation (<[j := p]> h) i n) by by rewrite length_insert.
  rewrite (insert_Permutation h j n) by done.
  apply Permutation_skip.
  apply (Permutation_cons_inv (a := p)).
  rewrite <- (delete_Permutation (<[j := p]> h) i p)
    by by rewrite list_lookup_insert_ne.
  by apply insert_Permutation.
Qed.

Lemma siftdown_loop_spec (fuel : nat) : ∀ (h : list A) (n : A) (pos : nat),
  pos ≤ fuel → pos < length h →
  up_inv (λ k, <[pos := n]> h !! k) pos →
  heap_ordered (siftdown_loop lt fuel h n 0 pos) ∧
  siftdown_loop lt fuel h n 0 pos ≡ₚ <[pos := n]> h.
Proof.
  induction fuel as [|fuel IH]; intros h n pos Hfuel Hlen Hinv; simpl.
  - split; [|done]. intros j Hj. eapply up_inv_done; eauto. left. lia.
  - destruct (decide (0 < pos)) as [Hpos|Hpos]; cycle 1.
    { split; [|done]. intros j Hj. eapply up_inv_done; eauto. left. lia. }
    pose proof (parent_cases pos Hpos) as Hpp.
    destruct (lookup_lt_is_Some_2 h (parent pos)) as [p Hp]; [lia|]. rewrite Hp.
    destruct (lt n p) eqn:Hlt.
    + destruct (IH (<[pos := p]> h) n (parent pos)) as [Hord Hperm].
      * lia.
      * rewrite length_insert. lia.
      * eapply up_inv_ext; [|eapply (up_inv_step _ pos n p); eauto].
        -- intros k. unfold swapf. simpl.
           destruct (decide (k = pos)) as [->|Hk]; [by norm_lookup|].
           destruct (decide (k = parent pos)) as [->|Hk']; by norm_lookup.
        -- simpl. by rewrite list_lookup_insert_eq.
        -- simpl. by rewrite list_lookup_insert_ne by lia.
      * split; [done|]. rewrite Hperm.
        apply insert_swap_Permutation; [done|lia|done].
    + split; [|done]. intros j Hj. eapply up_inv_done; eauto. right.
      intros x y. simpl. rewrite list_lookup_insert_ne by lia.
      rewrite list_lookup_insert_eq by lia. rewrite Hp. by intros [= <-] [= <-].
Qed.

Lemma siftdown_spec (h : list A) (pos : nat) :
  pos < length h → up_inv (λ k, h !! k) pos →
  heap_ordered (_siftdown lt h 0 pos) ∧ _siftdown lt h 0 pos ≡ₚ h.
Proof.
  intros Hlen Hinv. unfold _siftdown.
  destruct (lookup_lt_is_Some_2 h pos Hlen) as [n Hn]. rewrite Hn.
  assert (<[pos := n]> h = h) as Hid by by apply list_insert_id.
  rewrite <- Hid at 3. apply siftdown_loop_spec; [done|done|by rewrite Hid].
Qed.

Lemma down_inv_leaf (h : list A) (pos : nat) (n : A) :
  ¬ 2 * pos + 1 < length h → down_inv (λ k, h !! k) pos →
  up_inv (λ k, <[pos := n]> h !! k) pos.
Proof.
  intros Hleaf [Hedge Hgrand]. split.
  - intros j Hj Hne x y. simpl.
    pose proof (parent_cases j Hj) as Hpj.
    rewrite (list_lookup_insert_ne _ pos j) by done.
    destruct (decide (parent j = pos)) as [Hpar|Hpar].
    + intros _ Hy. apply lookup_lt_Some in Hy. lia.
    + rewrite list_lookup_insert_ne by done. intros Hx Hy.
      eapply (Hedge j); eauto.
  - intros Hpos c x y Hc Hpc _. simpl.
    pose proof (parent_cases c Hc) as Hcc.
    rewrite list_lookup_insert_ne by lia.
    intros Hy. apply lookup_lt_Some in Hy. lia.
Qed.

Lemma siftup_loop_spec (n : A) (fuel : nat) : ∀ (h : list A) (pos : nat) h1 pos1,
  length h ≤ fuel + pos → pos < length h →
  down_inv (λ k, h !! k) pos →
  siftup_loop lt fuel h pos = (h1, pos1) →
  pos1 < length h1 ∧ up_inv (λ k, <[pos1 := n]> h1 !! k) pos1 ∧
  <[pos1 := n]> h1 ≡ₚ <[pos := n]> h.
Proof.
  induction fuel as [|fuel IH]; intros h pos h1 pos1 Hfuel Hlen Hinv;
    cbn [siftup_loop].
  - lia.
  - destruct (decide (2 * pos + 1 < length h)) as [Hchild|Hleaf]; cycle 1.
    { intros [= <- <-]. split; [done|]. split; [|done]. by apply down_inv_leaf. }
    destruct (smaller_child_spec h pos Hchild) as (Hcc & Hclen & _).
    destruct (lookup_lt_is_Some_2 h _ Hclen) as [cv Hcv]. rewrite Hcv.
    intros Hloop. apply IH in Hloop as (Hl1 & Hup & Hperm).
    + split; [done|]. split; [done|]. rewrite Hperm.
      apply insert_swap_Permutation; [done|lia|done].
    + rewrite length_insert. lia.
    + by rewrite length_insert.
    + by eapply down_inv_step.
Qed.

Lemma siftup_spec (h : list A) :
  0 < length h → down_inv (λ k, h !! k) 0 →
  heap_ordered (_siftup lt h 0) ∧ _siftup lt h 0 ≡ₚ h.
Proof.
  intros Hlen Hinv. unfold _siftup.
  destruct (lookup_lt_is_Some_2 h 0 Hlen) as [n Hn]. rewrite Hn.
  destruct (siftup_loop lt (length h) h 0) as [h1 pos1] eqn:Hloop.
  apply (siftup_loop_spec n) in Hloop as (Hl1 & Hup & Hperm); [|lia|done|done].
  destruct (siftdown_spec (<[pos1 := n]> h1) pos1) as [Hord Hperm'].
  - by rewrite length_insert.
  - done.
  - split; [done|]. rewrite Hperm', Hperm. by rewrite list_insert_id.
Qed.

Lemma heap_ordered_nil : heap_ordered [].
Proof. intros j _ x y. simpl. by rewrite lookup_nil. Qed.

Lemma heappush_spec (h : list A) (x : A) :
  heap_ordered h →
  heap_ordered (heappush lt h x) ∧ heappush lt h x ≡ₚ x :: h.
Proof.
  intros Hord. unfold heappush.
  destruct (siftdown_spec (h ++ [x]) (length h)) as [Hord' Hperm].
  - rewrite length_app. simpl. lia.
  - split.
    + intros j Hj Hne a b. simpl. intros Ha Hb.
      pose proof (parent_cases j Hj) as Hpj.
      assert (j < length h) as Hjlen.
      { apply lookup_lt_Some in Hb. rewrite length_app in Hb. simpl in Hb. lia. }
      rewrite lookup_app_l in Ha, Hb by lia. eapply (Hord j); eauto.
    + intros Hpos c a b Hc Hpc _. simpl. intros Hb.
      pose proof (parent_cases c Hc) as Hcc.
      apply lookup_lt_Some in Hb. rewrite length_app in Hb. simpl in Hb. lia.
  - split; [done|]. rewrite Hperm. by rewrite Permutation_app_comm.
Qed.

Lemma root_min (h : list A) (r : A) :
  heap_ordered h → h !! 0 = Some r → ∀ j y, h !! j = Some y → le r y.
Proof.
  intros Hord Hr j. induction (lt_wf j) as [j _ IH]. intros y Hy.
  destruct (decide (j = 0)) as [->|Hj].
  - rewrite Hr in Hy. injection Hy as <-. apply le_refl.
  - assert (0 < j) as Hj' by lia.
    pose proof (parent_cases j Hj') as Hpj.
    destruct (lookup_lt_is_Some_2 h (parent j)) as [x Hx].
    { apply lookup_lt_Some in Hy. lia. }
    apply le_trans with x; [apply (IH (parent j)); [lia|done]|].
    by apply (Hord j Hj').
Qed.

Lemma heappop_None (h : list A) : heappop lt h = None ↔ h = [].
Proof.
  unfold heappop. destruct (last h) as [x|] eqn:Hlast.
  - split; [by destruct (removelast h)|]. intros ->. done.
  - apply last_None in Hlast. by subst.
Qed.

Lemma heappop_spec (h : list A) (x : A) (h' : list A) :
  heap_ordered h → heappop lt h = Some (x, h') →
  heap_ordered h' ∧ h ≡ₚ x :: h' ∧ Forall (le x) h'.
Proof.
  intros Hord. unfold heappop.
  destruct (last h) as [lastelt|] eqn:Hlast; [|done].
  apply last_Some in Hlast as [hd ->]. rewrite removelast_last.
  destruct hd as [|r tl].
  - intros [= <- <-]. split; [apply heap_ordered_nil|]. split; [done|constructor].
  - intros [= <- <-].
    destruct (siftup_spec (<[0 := lastelt]> (r :: tl))) as [Hord' Hperm].
    + simpl. lia.
    + split; [|intros; lia].
      intros j Hj Hj0 Hpj a b. simpl.
      pose proof (parent_cases j Hj) as Hpj'.
      destruct j as [|j]; [lia|].
      destruct (parent (S j)) as [|q] eqn:Hq; [done|]. simpl.
      intros Ha Hb. apply (Hord (S j) Hj); simpl; rewrite ?Hq; simpl.
      * apply lookup_app_l_Some. done.
      * apply lookup_app_l_Some. done.
    + split; [done|]. simpl in Hperm.
      assert ((r :: tl) ++ [lastelt] ≡ₚ r :: _siftup lt (<[0:=lastelt]> (r :: tl)) 0) as HP.
      { rewrite Hperm. simpl. apply Permutation_skip.
        by rewrite Permutation_app_comm. }
      split; [done|].
      apply Forall_forall. intros y Hy.
      assert (y ∈ (r :: tl) ++ [lastelt]) as Hy'.
      { rewrite HP. by right. }
      apply list_elem_of_lookup in Hy' as [j Hj].
      by apply (root_min _ r Hord) in Hj.
Qed.
End heap_facts.
End heapq_facts.

(** ** The order on queue entries *)

Lemma str_lt_irrefl (a : string) : str_lt a a = false.
Proof.
  unfold str_lt, String.ltb. pose proof (String.compare_antisym a a) as H.
  by destruct (String.compare a a).
Qed.

Lemma str_lt_trans (a b c : string) :
  str_lt a b = true → str_lt b c = true → str_lt a c = true.
Proof.
  unfold str_lt, String.ltb. intros Hab Hbc.
  assert (String.compare a b = Lt) as Hab' by by destruct (String.compare a b).
  assert (String.compare b c = Lt) as Hbc' by by destruct (String.compare b c).
  apply String_as_OT.cmp_lt in Hab', Hbc'.
  pose proof (String_as_OT.lt_trans _ _ _ Hab' Hbc') as Hac.
  apply String_as_OT.cmp_lt in Hac. unfold String_as_OT.cmp in Hac. by rewrite Hac.
Qed.

Lemma str_lt_total (a b : string) :
  str_lt a b = false → str_lt b a = false → a = b.
Proof.
  unfold str_lt, String.ltb. intros Hab Hba.
  apply String.compare_eq_iff. rewrite (String.compare_antisym b a) in Hba.
  by destruct (String.compare a b).
Qed.

Lemma pair_lt_irrefl (a : string * string) : pair_lt a a = false.
Proof. unfold pair_lt. rewrite decide_True by done. apply str_lt_irrefl. Qed.

Lemma pair_lt_trans (a b c : string * string) :
  pair_lt a b = true → pair_lt b c = true → pair_lt a c = true.
Proof.
  destruct a as [a1 a2], b as [b1 b2], c as [c1 c2]. unfold pair_lt. simpl.
  repeat case_decide; subst; eauto using str_lt_trans; try congruence.
  intros H1 H2. pose proof (str_lt_trans _ _ _ H1 H2) as H3.
  by rewrite str_lt_irrefl in H3.
Qed.

Lemma pair_lt_total (a b : string * string) :
  pair_lt a b = false → pair_lt b a = false → a = b.
Proof.
  destruct a as [a1 a2], b as [b1 b2]. unfold pair_lt. simpl.
  repeat case_decide; subst; try congruence.
  - intros H1 H2. f_equal. by apply str_lt_total.
  - intros H1 H2. exfalso. by pose proof (str_lt_total _ _ H1 H2).
Qed.

Lemma task_lt_irrefl (a : task) : task_lt a a = false.
Proof. unfold task_lt. rewrite decide_True by done. apply pair_lt_irrefl. Qed.

Lemma task_lt_trans (a b c : task) :
  task_lt a b = true → task_lt b c = true → task_lt a c = true.
Proof.
  destruct a as [a1 a2], b as [b1 b2], c as [c1 c2]. unfold task_lt. simpl.
  repeat case_decide; subst; eauto using pair_lt_trans; try congruence;
    rewrite ?Z.ltb_lt; try lia.
Qed.

Lemma task_lt_total (a b : task) :
  task_lt a b = false → task_lt b a = false → a = b.
Proof.
  destruct a as [a1 a2], b as [b1 b2]. unfold task_lt. simpl.
  repeat case_decide; subst; try congruence; rewrite ?Z.ltb_ge; try lia.
  intros H1 H2. f_equal. by apply pair_lt_total.
Qed.

Lemma task_le_priority (a b : task) : task_le a b → (priority a ≤ priority b)%Z.
Proof.
  unfold task_le, heapq.le, task_lt, priority. case_decide as Hp.
  - intros _. rewrite Hp. lia.
  - rewrite Z.ltb_ge. lia.
Qed.

Lemma task_le_tie (a b : task) :
  task_le a b → priority a = priority b → pair_le a.2 b.2.
Proof.
  unfold task_le, heapq.le, task_lt, priority, pair_le. intros H Hp.
  by rewrite decide_True in H by done.
Qed.

(** ** The queue: pushes then pops *)

Example drain_scenario_A :
drain (put_all [(100%Z, ("python3", "pyspark.a")); (0%Z, ("python3", "pyspark.sql.tests"));
                (100%Z, ("python3", "pyspark.b"))])
= [(0%Z, ("python3", "pyspark.sql.tests")); (100%Z, ("python3", "pyspark.a"));
   (100%Z, ("python3", "pyspark.b"))].
Proof. vm_compute. reflexivity. Qed.

Lemma put_all_from (tasks : list task) : ∀ q : list task,
  heapq.heap_ordered task_lt q →
  heapq.heap_ordered task_lt (foldl PriorityQueue.put q tasks) ∧
  foldl PriorityQueue.put q tasks ≡ₚ q ++ tasks.
Proof.
  induction tasks as [|t tasks IH]; intros q Hq; simpl.
  - by rewrite app_nil_r.
  - destruct (heapq_facts.heappush_spec task_lt task_lt_irrefl task_lt_trans
                task_lt_total q t Hq) as [Hord Hperm].
    destruct (IH _ Hord) as [Hord' Hperm']. split; [done|].
    rewrite Hperm'. unfold PriorityQueue.put. rewrite Hperm.
    by rewrite (Permutation_middle q tasks t).
Qed.

Lemma put_all_spec (tasks : list task) :
  heapq.heap_ordered task_lt (put_all tasks) ∧ put_all tasks ≡ₚ tasks.
Proof. apply (put_all_from tasks []). apply heapq_facts.heap_ordered_nil. Qed.

Lemma pop_all_spec (fuel : nat) : ∀ q : list task,
  length q ≤ fuel → heapq.heap_ordered task_lt q →
  StronglySorted task_le (pop_all fuel q) ∧ pop_all fuel q ≡ₚ q.
Proof.
  induction fuel as [|fuel IH]; intros q Hlen Hq; simpl.
  - destruct q; simpl in *; [|lia]. split; [constructor|done].
  - unfold PriorityQueue.get_nowait.
    destruct q as [|t0 q0]; [split; [constructor|done]|].
    destruct (heapq.heappop task_lt (t0 :: q0)) as [[t q']|] eqn:Hpop; cycle 1.
    { by apply heapq_facts.heappop_None in Hpop. }
    destruct (heapq_facts.heappop_spec task_lt task_lt_irrefl task_lt_trans
                task_lt_total _ _ _ Hq Hpop) as (Hord & Hperm & Hmin).
    destruct (IH q') as [Hsort Hperm'].
    + apply Permutation_length in Hperm. simpl in *. lia.
    + done.
    + split.
      * constructor; [done|]. by rewrite Hperm'.
      * rewrite Hperm. by apply Permutation_skip.
Qed.

Lemma drain_put_all_sorted (tasks : list task) :
  StronglySorted task_le (drain (put_all tasks)) ∧ drain (put_all tasks) ≡ₚ tasks.
Proof.
  destruct (put_all_spec tasks) as [Hord Hperm].
  destruct (pop_all_spec (length (put_all tasks)) (put_all tasks)) as [Hs Hp];
    [done|done|].
  split; [done|]. unfold drain. by rewrite Hp.
Qed.

Lemma StronglySorted_impl {X : Type} (R S : X → X → Prop) (l : list X) :
  (∀ a b, R a b → S a b) → StronglySorted R l → StronglySorted S l.
Proof.
  intros HRS. induction 1 as [|a l Hl IH Ha]; constructor; [done|].
  eapply Forall_impl; eauto.
Qed.

(** C1 (as the code has it): whatever sequence of tasks is put into the
    queue, a single consumer that pops until the queue is empty receives
    exactly those tasks, in non-decreasing priority order; among tasks of
    equal priority the order is the one of Python's tuple comparison on
    (python_exec, test_goal), not the order of insertion. *)
Theorem C1_pop_order_by_priority_then_exec_goal (tasks : list task) :
  drain (put_all tasks) ≡ₚ tasks ∧
  StronglySorted (λ a b, (priority a ≤ priority b)%Z) (drain (put_all tasks)) ∧
  StronglySorted (λ a b, priority a = priority b → pair_le a.2 b.2)
    (drain (put_all tasks)).
Proof.
  destruct (drain_put_all_sorted tasks) as [Hs Hp].
  split; [done|]. split.
  - eapply StronglySorted_impl; [|done]. apply task_le_priority.
  - eapply StronglySorted_impl; [|done]. apply task_le_tie.
Qed.

(** C1 (as stated) fails: two goals of priority 0 put in the order b, a
    are popped in the order a, b. *)
Lemma C1_insertion_order_counterexample :
  drain (put_all tasks_b_then_a)
    = [(0%Z, ("python3", "pyspark.sql.tests.a")); (0%Z, ("python3", "pyspark.sql.tests.b"))] ∧
  ¬ ties_in_insertion_order tasks_b_then_a (drain (put_all tasks_b_then_a)).
Proof.
  split; [by vm_compute|].
  intros H. specialize (H 0%Z). vm_compute in H. discriminate H.
Qed.

(** ** Regular expressions: the matcher against the language *)

Module re_facts.
Import re.

Lemma matches_empty_inv (s : text) : ¬ matches Empty s.
Proof. inversion 1. Qed.

Lemma matches_eps_inv (s : text) : matches Eps s ↔ s = [].
Proof. split; [by inversion 1|intros ->; constructor]. Qed.

Lemma matches_chr_inv (p : N → bool) (s : text) :
  matches (Chr p) s ↔ ∃ c, s = [c] ∧ p c = true.
Proof.
  split; [inversion 1; eauto|]. intros (c & -> & Hc). by constructor.
Qed.

Lemma matches_cat_inv (r1 r2 : regex) (s : text) :
  matches (Cat r1 r2) s ↔ ∃ s1 s2, s = s1 ++ s2 ∧ matches r1 s1 ∧ matches r2 s2.
Proof.
  split; [inversion 1; eauto|]. intros (s1 & s2 & -> & H1 & H2). by constructor.
Qed.

Lemma matches_alt_inv (r1 r2 : regex) (s : text) :
  matches (Alt r1 r2) s ↔ matches r1 s ∨ matches r2 s.
Proof.
  split; [inversion 1; eauto|].
  intros [H|H]; [by apply matches_alt_l | by apply matches_alt_r].
Qed.

Lemma nullable_spec (r : regex) : nullable r = true ↔ matches r [].
Proof.
  induction r as [| |p|r1 IH1 r2 IH2|r1 IH1 r2 IH2|r IH]; simpl.
  - split; [done|]. intros H. by apply matches_empty_inv in H.
  - split; [constructor|done].
  - split; [done|]. rewrite matches_chr_inv. by intros (c & ? & _).
  - rewrite andb_true_iff, IH1, IH2, matches_cat_inv. split.
    + intros [H1 H2]. by exists [], [].
    + intros (s1 & s2 & Hs & H1 & H2).
      symmetry in Hs. apply app_eq_nil in Hs as [-> ->]. done.
  - by rewrite orb_true_iff, IH1, IH2, matches_alt_inv.
  - split; [constructor|done].
Qed.

Lemma cat_spec (r1 r2 : regex) (s : text) :
  matches (cat r1 r2) s ↔ matches (Cat r1 r2) s.
Proof.
  rewrite matches_cat_inv.
  assert (matches Empty s ↔ ∃ s1 s2, s = s1 ++ s2 ∧ matches r1 s1 ∧ matches Empty s2)
    as Hr.
  { split; [by intros ?%matches_empty_inv|].
    by intros (? & ? & _ & _ & ?%matches_empty_inv). }
  assert (matches r2 s ↔ ∃ s1 s2, s = s1 ++ s2 ∧ matches Eps s1 ∧ matches r2 s2)
    as He.
  { split; [intros H; exists [], s; split_and!; [done|constructor|done]|].
    by intros (? & ? & -> & ->%matches_eps_inv & ?). }
  destruct r1; simpl;
    try (split; [by intros ?%matches_empty_inv|
                 by intros (? & ? & _ & ?%matches_empty_inv & _)]);
    destruct r2; try done; by rewrite <- matches_cat_inv.
Qed.

Lemma alt_spec (r1 r2 : regex) (s : text) :
  matches (alt r1 r2) s ↔ matches (Alt r1 r2) s.
Proof.
  rewrite matches_alt_inv.
  destruct r1; simpl;
    try (split; [by right|by intros [?%matches_empty_inv|?]]);
    destruct r2; simpl; rewrite ?matches_alt_inv; try done;
    (split; [by left|by intros [?|?%matches_empty_inv]]).
Qed.

Lemma star_cons_inv (r : regex) (c : N) (s : text) :
  matches (Star r) (c :: s) →
  ∃ s1 s2, s = s1 ++ s2 ∧ matches r (c :: s1) ∧ matches (Star r) s2.
Proof.
  intros H. remember (Star r) as r' eqn:Hr. remember (c :: s) as s' eqn:Hs.
  revert s Hs. induction H as [| | | | | |r0 s1 s2 H1 _ H2 IH2]; try done.
  injection Hr as ->. intros s Hs.
  destruct s1 as [|c1 s1]; simpl in Hs.
  - by apply IH2.
  - injection Hs as -> <-. by exists s1, s2.
Qed.

Lemma deriv_spec (r : regex) : ∀ (c : N) (s : text),
  matches (deriv c r) s ↔ matches r (c :: s).
Proof.
  induction r as [| |p|r1 IH1 r2 IH2|r1 IH1 r2 IH2|r IH]; intros c s; simpl.
  - split; by intros ?%matches_empty_inv.
  - split; [by intros ?%matches_empty_inv|by intros ?%matches_eps_inv].
  - rewrite matches_chr_inv. destruct (p c) eqn:Hp.
    + rewrite matches_eps_inv. split; [intros ->; eauto|by intros (? & [= -> ->] & _)].
    + split; [by intros ?%matches_empty_inv|]. intros (? & [= -> ->] & ?). congruence.
  - assert (matches (cat (deriv c r1) r2) s ↔
            ∃ s1 s2, s = s1 ++ s2 ∧ matches r1 (c :: s1) ∧ matches r2 s2) as Hcat.
    { rewrite cat_spec, matches_cat_inv. by setoid_rewrite IH1. }
    rewrite matches_cat_inv.
    destruct (nullable r1) eqn:Hn.
    + rewrite alt_spec, matches_alt_inv, Hcat, IH2. split.
      * intros [(s1 & s2 & -> & H1 & H2)|H2].
        -- by exists (c :: s1), s2.
        -- exists [], (c :: s). split_and!; [done| |done]. by apply nullable_spec.
      * intros (s1 & s2 & Hs & H1 & H2). destruct s1 as [|c1 s1]; simpl in Hs.
        -- right. by subst.
        -- injection Hs as -> ->. left. by exists s1, s2.
    + rewrite Hcat. split.
      * intros (s1 & s2 & -> & H1 & H2). by exists (c :: s1), s2.
      * intros (s1 & s2 & Hs & H1 & H2). destruct s1 as [|c1 s1]; simpl in Hs.
        -- apply nullable_spec in H1. congruence.
        -- injection Hs as -> ->. by exists s1, s2.
  - by rewrite alt_spec, !matches_alt_inv, IH1, IH2.
  - rewrite cat_spec, matches_cat_inv. split.
    + intros (s1 & s2 & -> & H1 & H2). apply IH in H1.
      by apply (matches_star_cons r (c :: s1) s2).
    + intros (s1 & s2 & -> & H1 & H2)%star_cons_inv.
      exists s1, s2. by rewrite IH.
Qed.

Lemma match_spec (s : text) : ∀ r : regex,
  match_ r s = true ↔ ∃ p q, s = p ++ q ∧ matches r p.
Proof.
  induction s as [|c s IH]; intros r; simpl.
  - rewrite orb_false_r, nullable_spec. split.
    + intros H. by exists [], [].
    + intros (p & q & Hs & H). symmetry in Hs. by apply app_eq_nil in Hs as [-> _].
  - rewrite orb_true_iff, nullable_spec, IH. split.
    + intros [H|(p & q & -> & H)].
      * by exists [], (c :: s).
      * exists (c :: p), q. by rewrite <- deriv_spec.
    + intros (p & q & Hs & H). destruct p as [|c' p]; simpl in Hs.
      * by left.
      * injection Hs as -> ->. right. exists p, q. by rewrite deriv_spec.
Qed.

Lemma search_spec (r : regex) (s : text) :
  search r s = true ↔ ∃ pre p q, s = pre ++ p ++ q ∧ matches r p.
Proof.
  induction s as [|c s IH]; cbn [search].
  - rewrite orb_false_r, match_spec. split.
    + intros (p & q & Hs & H). by exists [], p, q.
    + intros (pre & p & q & Hs & H). symmetry in Hs.
      apply app_eq_nil in Hs as [_ Hs]. apply app_eq_nil in Hs as [-> _].
      by exists [], [].
  - rewrite orb_true_iff, IH, match_spec. split.
    + intros [(p & q & Hs & H)|(pre & p & q & -> & H)].
      * by exists [], p, q.
      * by exists (c :: pre), p, q.
    + intros (pre & p & q & Hs & H). destruct pre as [|c' pre]; simpl in Hs.
      * left. by exists p, q.
      * injection Hs as -> ->. right. by exists pre, p, q.
Qed.

Lemma matches_lit (str : string) (s : text) :
  matches (lit str) s ↔ s = codepoints str.
Proof.
  unfold lit. generalize (codepoints str) as l. intros l. revert s.
  induction l as [|c l IH]; intros s; simpl.
  - apply matches_eps_inv.
  - rewrite matches_cat_inv. split.
    + intros (s1 & s2 & -> & (c' & -> & ->%N.eqb_eq)%matches_chr_inv & ->%IH). done.
    + intros ->. exists [c], l. split_and!; [done| |by apply IH].
      constructor. apply N.eqb_refl.
Qed.

Lemma matches_star_chr (p : N → bool) (s : text) :
  matches (Star (Chr p)) s ↔ Forall (λ c, p c = true) s.
Proof.
  split.
  - intros H. remember (Star (Chr p)) as r eqn:Hr.
    induction H as [| | | | | |r0 s1 s2 H1 _ H2 IH2]; try done.
    injection Hr as ->. apply matches_chr_inv in H1 as (c & -> & Hc).
    constructor; [done|]. by apply IH2.
  - induction 1 as [|c s Hc _ IH]; [constructor|].
    apply (matches_star_cons _ [c] s); [by constructor|done].
Qed.

End re_facts.

(** ** C2: which lines the skip filter keeps *)

Lemma matches_dot (s : text) : re.matches re.dot s ↔ ∃ c, s = [c] ∧ c ≠ 10%N.
Proof.
  unfold re.dot. rewrite re_facts.matches_chr_inv.
  split; intros (c & -> & Hc); exists c; split; try done.
  - intros ->. done.
  - by apply negb_true_iff, N.eqb_neq.
Qed.

Lemma matches_star_dot (s : text) :
  re.matches (re.Star re.dot) s ↔ Forall (λ c, c ≠ 10%N) s.
Proof.
  unfold re.dot. rewrite re_facts.matches_star_chr.
  apply Forall_proper; [|done]. intros c.
  rewrite negb_true_iff. apply N.eqb_neq.
Qed.

(** The language of [SKIP_PATTERN], spelled out. *)
Lemma SKIP_PATTERN_matches (p : text) :
  re.matches SKIP_PATTERN p ↔
  ∃ a b c1 c2 c3 kw,
    p = codepoints "test_" ++ a ++ codepoints " (pyspark." ++ b ++ codepoints ") "
          ++ [c1; c2; c3] ++ codepoints " " ++ kw ∧
    Forall (λ c, c ≠ 10%N) a ∧ Forall (λ c, c ≠ 10%N) b ∧
    c1 ≠ 10%N ∧ c2 ≠ 10%N ∧ c3 ≠ 10%N ∧
    (kw = codepoints "skip" ∨ kw = codepoints "SKIP").
Proof.
  unfold SKIP_PATTERN. split.
  - intros H.
    repeat match goal with
           | H : re.matches (re.Cat _ _) _ |- _ =>
               apply re_facts.matches_cat_inv in H as (? & ? & -> & ? & ?)
           end.
    repeat match goal with
           | H : re.matches (re.lit _) _ |- _ => apply re_facts.matches_lit in H as ->
           | H : re.matches (re.Star re.dot) _ |- _ => apply matches_star_dot in H
           | H : re.matches re.dot _ |- _ => apply matches_dot in H as (? & -> & ?)
           | H : re.matches (re.Alt _ _) _ |- _ => apply re_facts.matches_alt_inv in H
           end.
    eexists _, _, _, _, _, _. split; [reflexivity|]. split_and!; try done.
    match goal with
    | H : _ ∨ _ |- _ => destruct H as [H|H]; apply re_facts.matches_lit in H; eauto
    end.
  - intros (a & b & c1 & c2 & c3 & kw & -> & Ha & Hb & H1 & H2 & H3 & Hkw).
    apply re.matches_cat; [by apply re_facts.matches_lit|].
    apply re.matches_cat; [by apply matches_star_dot|].
    apply re.matches_cat; [by apply re_facts.matches_lit|].
    apply re.matches_cat; [by apply matches_star_dot|].
    apply re.matches_cat; [by apply re_facts.matches_lit|].
    apply (re.matches_cat _ _ [c1]); [apply matches_dot; eauto|].
    apply (re.matches_cat _ _ [c2]); [apply matches_dot; eauto|].
    apply (re.matches_cat _ _ [c3]); [apply matches_dot; eauto|].
    apply re.matches_cat; [by apply re_facts.matches_lit|].
    apply re_facts.matches_alt_inv.
    destruct Hkw as [-> | ->]; [left|right]; by apply re_facts.matches_lit.
Qed.

Lemma find_skipped_tests_elem (host : Host) (buf : list Byte.byte) (line : text) :
  line ∈ find_skipped_tests host buf ↔
  line ∈ decode host <$> readlines buf ∧ is_skipped_line line = true.
Proof. unfold find_skipped_tests. rewrite list_elem_of_filter. tauto. Qed.

(** C2 (as the code has it): the lines kept as skipped tests are exactly
    the decoded lines of the buffer that pass the filter of line 149.  Every
    line that holds [test_], any characters, [ (pyspark.], any characters,
    [) ... ] and then [skip] or [SKIP] passes it; the characters between
    [test_] and the parenthesis need not form one token and those after
    [pyspark.] need not form an identifier.  A line that passes holds
    [test_], later [ (pyspark.], later [) ], three characters, a space and
    [skip] or [SKIP], in only these two casings. *)
Theorem C2_skip_filter :
  (∀ host buf line,
     line ∈ find_skipped_tests host buf ↔
     line ∈ decode host <$> readlines buf ∧ is_skipped_line line = true) ∧
  (∀ pre a b kw post,
     Forall (λ c, c ≠ 10%N) a → Forall (λ c, c ≠ 10%N) b →
     kw = codepoints "skip" ∨ kw = codepoints "SKIP" →
     is_skipped_line (pre ++ codepoints "test_" ++ a ++ codepoints " (pyspark." ++ b
                        ++ codepoints ") ... " ++ kw ++ post) = true) ∧
  (∀ line,
     is_skipped_line line = true →
     ∃ pre a b c kw post,
       line = pre ++ codepoints "test_" ++ a ++ codepoints " (pyspark." ++ b
                ++ codepoints ") " ++ c ++ codepoints " " ++ kw ++ post ∧
       length c = 3 ∧ (kw = codepoints "skip" ∨ kw = codepoints "SKIP")).
Proof.
  split; [apply find_skipped_tests_elem|]. split.
  - intros pre a b kw post Ha Hb Hkw. unfold is_skipped_line.
    apply re_facts.search_spec.
    exists pre, (codepoints "test_" ++ a ++ codepoints " (pyspark." ++ b
                   ++ codepoints ") " ++ [46; 46; 46]%N ++ codepoints " " ++ kw), post.
    split.
    + change (codepoints ") ... ")
        with (codepoints ") " ++ [46; 46; 46]%N ++ codepoints " ").
      by rewrite <- !app_assoc.
    + apply SKIP_PATTERN_matches. eexists a, b, _, _, _, kw.
      split; [reflexivity|]. split_and!; done.
  - intros line (pre & p & post & -> & Hp)%re_facts.search_spec.
    apply SKIP_PATTERN_matches in Hp
      as (a & b & c1 & c2 & c3 & kw & -> & _ & _ & _ & _ & _ & Hkw).
    exists pre, a, b, [c1; c2; c3], kw, post. split; [|done].
    by rewrite <- !app_assoc.
Qed.

Lemma C2_skip_filter_witness :
  is_skipped_line (codepoints "test_a (pyspark.b) ... skipped") = true.
Proof.
  apply (proj1 (proj2 C2_skip_filter) [] (codepoints "a") (codepoints "b")
           (codepoints "skip") (codepoints "ped")).
  - repeat constructor; done.
  - repeat constructor; done.
  - by left.
Defined.

(** C2 (as stated) fails: the characters after [test_] may hold spaces and
    those in the parentheses need not be a dotted identifier. *)
Lemma C2_token_counterexample :
  is_skipped_line (codepoints "test_a b (pyspark.c d) ... skip") = true ∧
  re.search SPEC_SKIP_PATTERN (codepoints "test_a b (pyspark.c d) ... skip") = false.
Proof. split; vm_compute; reflexivity. Qed.

(** The three dots of the pattern are not escaped: any three characters
    pass. *)
Example skip_filter_unescaped_dots :
  is_skipped_line (codepoints "test_a (pyspark.b) xyz skip") = true.
Proof. vm_compute. reflexivity. Qed.

Example skip_filter_other_package :
  is_skipped_line (codepoints "test_foo (pkg.Suite) ... skip") = false.
Proof. vm_compute. reflexivity. Qed.

(** ** The runner: frames and the path through a task *)

Lemma bind_Ok {A B : Type} (m : IO A) (f : A → IO B) (w w' : World) (a : A) :
  m w = Ok a w' → (m ≫= f) w = f a w'.
Proof. unfold mbind, IO_bind. by intros ->. Qed.

Lemma bind_Raised {A B : Type} (m : IO A) (f : A → IO B) (w w' : World) :
  m w = Raised w' → (m ≫= f) w = Raised w'.
Proof. unfold mbind, IO_bind. by intros ->. Qed.

Lemma io_fault_nil (w : World) : io_faults w = [] → io_fault w = Ok () w.
Proof. unfold io_fault. by intros ->. Qed.

Lemma io_fault_tail (w : World) :
  head (io_faults w) ≠ Some true →
  io_fault w = Ok () (set_io_faults (tail (io_faults w)) w).
Proof.
  unfold io_fault. destruct w as [ds us cs lf co sk [|[] fs] it]; simpl; done.
Qed.

Lemma console_emit_all (es : list event) : ∀ w : World,
  console (emit_all es w) = console w ++ es.
Proof.
  induction es as [|e es IH]; intros w; [simpl; by rewrite app_nil_r|].
  change (emit_all (e :: es) w) with (emit_all es (emit e w)).
  rewrite IH. simpl. by rewrite <- app_assoc.
Qed.

Lemma emit_all_frame (es : list event) : ∀ w : World,
  dirs (emit_all es w) = dirs w ∧ uuids (emit_all es w) = uuids w ∧
  log_file (emit_all es w) = log_file w ∧
  SKIPPED_TESTS (emit_all es w) = SKIPPED_TESTS w ∧
  io_faults (emit_all es w) = io_faults w ∧
  interrupt_in (emit_all es w) = interrupt_in w.
Proof.
  induction es as [|e es IH]; intros w; [done|].
  change (emit_all (e :: es) w) with (emit_all es (emit e w)).
  by destruct (IH (emit e w)) as (-> & -> & -> & -> & -> & ->).
Qed.

Lemma log_file_emit (e : event) (w : World) : log_file (emit e w) = log_file w.
Proof. done. Qed.

Lemma log_file_emit_all (es : list event) (w : World) :
  log_file (emit_all es w) = log_file w.
Proof. by destruct (emit_all_frame es w) as (_ & _ & -> & _). Qed.

(** Making the directories touches nothing but the file system and the
    source of names. *)
Lemma prepare_frame (host : Host) (target_dir : path) (pyspark_python : string)
    (w w1 : World) env (tmp_dir metastore_dir : path) :
  prepare host target_dir pyspark_python w = Some (env, tmp_dir, metastore_dir, w1) →
  io_faults w1 = io_faults w ∧ console w1 = console w ∧ log_file w1 = log_file w ∧
  SKIPPED_TESTS w1 = SKIPPED_TESTS w ∧ interrupt_in w1 = interrupt_in w.
Proof.
  unfold prepare, make_tmp_dir, make_metastore_dir, others_mkdir. intros H.
  destruct (uuids w) as [|u us]; [done|].
  destruct (retry_tmp_dir _ _ _ _) as [[t us1]|]; [|done].
  destruct (concurrent_mkdirs _) as [|batch rest]; simpl in H.
  - destruct us1 as [|u1 us1]; [done|].
    destruct (retry_metastore_dir _ _ _) as [[m us2]|]; [|done].
    by injection H as _ _ _ <-.
  - destruct us1 as [|u1 us1]; [done|].
    destruct (retry_metastore_dir _ _ _) as [[m us2]|]; [|done].
    by injection H as _ _ _ <-.
Qed.

Lemma run_spawned (host : Host) (target_dir : path) (test_name pyspark_python : string)
    (w w1 : World) env (tmp_dir metastore_dir : path) (retcode : Z)
    (per_test_output : list Byte.byte) :
  prepare host target_dir pyspark_python w = Some (env, tmp_dir, metastore_dir, w1) →
  Popen_wait host env test_name = Popen_exits retcode per_test_output →
  head (io_faults w) ≠ Some true →
  run_individual_python_test host target_dir test_name pyspark_python w =
    if decide (retcode ≠ 0%Z)
    then report_failure host test_name pyspark_python per_test_output
           (after_spawn pyspark_python test_name tmp_dir w1)
    else finish_test host test_name pyspark_python per_test_output
           (after_spawn pyspark_python test_name tmp_dir w1).
Proof.
  intros Hprep Hchild Hfault. unfold run_individual_python_test. rewrite Hprep.
  destruct (prepare_frame _ _ _ _ _ _ _ _ Hprep) as (Hf & _).
  unfold spawn.
  erewrite bind_Ok; cycle 1.
  { apply io_fault_tail. simpl. by rewrite Hf. }
  rewrite Hchild. unfold mbind, IO_bind, exec, mret, IO_ret. simpl.
  unfold after_spawn. by rewrite Hf.
Qed.


Lemma subprocess_outcome_inv (host : Host) (target_dir : path)
    (test_name pyspark_python : string) (w : World) (o : popen_outcome) :
  subprocess_outcome host target_dir test_name pyspark_python w = Some o →
  ∃ env tmp_dir metastore_dir w1,
    prepare host target_dir pyspark_python w = Some (env, tmp_dir, metastore_dir, w1) ∧
    Popen_wait host env test_name = o.
Proof.
  unfold subprocess_outcome.
  destruct (prepare _ _ _ _) as [[[[env t] m] w1]|]; [|done].
  intros [= <-]. by exists env, t, m, w1.
Qed.

Lemma after_spawn_frame (pyspark_python test_name : string) (tmp_dir : path)
    (w1 : World) :
  console (after_spawn pyspark_python test_name tmp_dir w1)
    = console w1 ++ [LOGGER_info (Starting_test pyspark_python test_name)] ∧
  log_file (after_spawn pyspark_python test_name tmp_dir w1) = log_file w1 ∧
  SKIPPED_TESTS (after_spawn pyspark_python test_name tmp_dir w1) = SKIPPED_TESTS w1 ∧
  io_faults (after_spawn pyspark_python test_name tmp_dir w1) = tail (io_faults w1) ∧
  interrupt_in (after_spawn pyspark_python test_name tmp_dir w1) = interrupt_in w1.
Proof. done. Qed.

(** ** The failure reporter *)

Lemma concat_readlines (buf : list Byte.byte) : concat (readlines buf) = buf.
Proof.
  induction buf as [|b buf IH]; simpl; [done|].
  destruct (Byte.eqb b Byte.x0a); simpl; [by rewrite IH|].
  destruct (readlines buf) as [|l ls]; simpl in *; by rewrite <- IH.
Qed.

Lemma match_Empty (s : text) : re.match_ re.Empty s = false.
Proof. induction s as [|c s IH]; simpl; done. Qed.

Lemma match_DIGITS_PATTERN (line : text) :
  re.match_ DIGITS_PATTERN line = begins_with_digit line.
Proof.
  destruct line as [|d line]; [done|].
  unfold DIGITS_PATTERN, begins_with_digit. cbn.
  destruct ((48 <=? d)%N && (d <=? 57)%N); cbn; [by destruct line|apply match_Empty].
Qed.

Lemma echo_lines_no_fault (host : Host) (lines : list (list Byte.byte)) : ∀ w : World,
  io_faults w = [] →
  echo_lines host lines w =
    Ok () (emit_all (Print <$> filter (λ line, begins_with_digit line = false)
                                 (decode host <$> lines)) w).
Proof.
  induction lines as [|line lines IH]; intros w Hf; simpl; [done|].
  rewrite match_DIGITS_PATTERN.
  destruct (begins_with_digit (decode host line)) eqn:Hd.
  - rewrite filter_cons_False by (rewrite Hd; done). by apply IH.
  - rewrite filter_cons_True by done.
    erewrite bind_Ok by by apply io_fault_nil.
    unfold mbind, IO_bind, exec. by rewrite IH.
Qed.

Lemma report_failure_no_fault (host : Host) (test_name pyspark_python : string)
    (per_test_output : list Byte.byte) (w : World) :
  io_faults w = [] →
  report_failure host test_name pyspark_python per_test_output w =
    Exits (-1)
      (emit (Print_red (had_test_failures test_name pyspark_python))
         (emit_all (Print <$> echoed host per_test_output)
            (set_log_file (Some (default [] (log_file w) ++ per_test_output)) w))).
Proof.
  intros Hf. unfold report_failure, append_to_log.
  erewrite bind_Ok; cycle 1.
  { erewrite bind_Ok by by apply io_fault_nil.
    erewrite bind_Ok by by apply io_fault_nil.
    unfold exec. rewrite concat_readlines. reflexivity. }
  by rewrite echo_lines_no_fault.
Qed.

Lemma run_failure_no_fault (host : Host) (target_dir : path)
    (test_name pyspark_python : string) (w : World) (retcode : Z)
    (per_test_output : list Byte.byte) :
  subprocess_outcome host target_dir test_name pyspark_python w
    = Some (Popen_exits retcode per_test_output) →
  retcode ≠ 0%Z → io_faults w = [] →
  ∃ w', run_individual_python_test host target_dir test_name pyspark_python w
          = Exits (-1) w' ∧
        console w' = console w
          ++ [LOGGER_info (Starting_test pyspark_python test_name)]
          ++ (Print <$> echoed host per_test_output)
          ++ [Print_red (had_test_failures test_name pyspark_python)] ∧
        log_file w' = Some (default [] (log_file w) ++ per_test_output).
Proof.
  intros (env & t & m & w1 & Hprep & Hchild)%subprocess_outcome_inv Hrc Hf.
  destruct (prepare_frame _ _ _ _ _ _ _ _ Hprep) as (Hf1 & Hc1 & Hl1 & _).
  rewrite (run_spawned _ _ _ _ _ _ _ _ _ _ _ Hprep Hchild) by by rewrite Hf.
  rewrite decide_True by done.
  rewrite report_failure_no_fault by (simpl; by rewrite Hf1, Hf).
  eexists. split; [reflexivity|]. split.
  - simpl. rewrite console_emit_all. simpl. rewrite Hc1. by rewrite <- !app_assoc.
  - rewrite log_file_emit, log_file_emit_all. simpl. by rewrite Hl1.
Qed.

(** C9: when the output of a failed task is echoed, the lines that reach
    the console are the decoded lines of the buffer that do not begin with
    a decimal digit, all of them and in their order; the lines that begin
    with a digit are left out. *)
Theorem C9_echo_drops_lines_beginning_with_digit (host : Host) (target_dir : path)
    (test_name pyspark_python : string) (w : World) (retcode : Z)
    (per_test_output : list Byte.byte) :
  subprocess_outcome host target_dir test_name pyspark_python w
    = Some (Popen_exits retcode per_test_output) →
  retcode ≠ 0%Z → io_faults w = [] →
  ∃ w', run_individual_python_test host target_dir test_name pyspark_python w
          = Exits (-1) w' ∧
        console w' = console w
          ++ [LOGGER_info (Starting_test pyspark_python test_name)]
          ++ (Print <$> filter (λ line, begins_with_digit line = false)
                          (decode host <$> readlines per_test_output))
          ++ [Print_red (had_test_failures test_name pyspark_python)].
Proof.
  intros Hchild Hrc Hf.
  destruct (run_failure_no_fault _ _ _ _ _ _ _ Hchild Hrc Hf) as (w' & Hrun & Hc & _).
  by exists w'.
Qed.

Lemma C9_echo_witness :
  ∃ w', run_individual_python_test (example_host failing_child) example_target_dir
          "pyspark.x" "python3" example_world = Exits (-1) w' ∧
        console w' = console example_world
          ++ [LOGGER_info (Starting_test "python3" "pyspark.x")]
          ++ (Print <$> filter (λ line, begins_with_digit line = false)
                          (decode (example_host failing_child)
                             <$> readlines failing_output))
          ++ [Print_red (had_test_failures "pyspark.x" "python3")].
Proof.
  apply (C9_echo_drops_lines_beginning_with_digit (example_host failing_child)
           example_target_dir "pyspark.x" "python3" example_world 1%Z failing_output).
  - vm_compute. reflexivity.
  - done.
  - reflexivity.
Defined.

Example echo_of_failing_output :
  echoed (example_host failing_child) failing_output
    = [codepoints (String.append "FAIL: test_x" LF); codepoints "Ran 1 test"].
Proof. vm_compute. reflexivity. Qed.

(** ** What a task leaves untouched *)

Section frame.
Variable host : Host.
Variable P : World → World → Prop.
Hypothesis P_refl : ∀ w, P w w.
Hypothesis P_trans : ∀ w1 w2 w3, P w1 w2 → P w2 w3 → P w1 w3.
Hypothesis P_emit : ∀ e w, P w (emit e w).
Hypothesis P_dirs : ∀ f w, P w (set_dirs f w).
Hypothesis P_uuids : ∀ us w, P w (set_uuids us w).
Hypothesis P_concurrent : ∀ c w, P w (set_concurrent_mkdirs c w).
Hypothesis P_faults : ∀ fs w, P w (set_io_faults fs w).
Hypothesis P_skipped : ∀ m w, P w (set_SKIPPED_TESTS m w).
Hypothesis P_interrupt : ∀ n w, P w (set_interrupt_in n w).
Hypothesis P_log : ∀ l w, P w (set_log_file l w).


Lemma io_fault_respects : io_respects P io_fault.
Proof. intros w. unfold io_fault. destruct (io_faults w) as [|[] fs]; eauto. Qed.

Lemma exec_respects (f : World → World) :
  (∀ w, P w (f w)) → io_respects P (exec f).
Proof. intros Hf w. apply Hf. Qed.

Lemma mret_respects {A : Type} (a : A) : io_respects P (mret a).
Proof. intros w. apply P_refl. Qed.

Lemma raise_respects {A : Type} : io_respects P (@raise A).
Proof. intros w. apply P_refl. Qed.

Lemma bind_respects {A B : Type} (m : IO A) (f : A → IO B) :
  io_respects P m → (∀ a, io_respects P (f a)) → io_respects P (m ≫= f).
Proof.
  intros Hm Hf w. unfold mbind, IO_bind. specialize (Hm w).
  destruct (m w) as [a w1|w1]; [|done].
  specialize (Hf a w1). destruct (f a w1); eauto.
Qed.


Lemma spawn_respects env (test_name : string) (tmp_dir : path) :
  io_respects P (spawn host env test_name tmp_dir).
Proof.
  unfold spawn. apply bind_respects; [apply io_fault_respects|]. intros _.
  destruct (Popen_wait host env test_name); [apply raise_respects|].
  apply bind_respects; [|intros; apply mret_respects].
  apply exec_respects. intros w. apply P_dirs.
Qed.

Lemma echo_lines_respects (lines : list (list Byte.byte)) :
  io_respects P (echo_lines host lines).
Proof.
  induction lines as [|line lines IH]; simpl; [apply mret_respects|].
  destruct (re.match_ _ _); [done|].
  apply bind_respects; [apply io_fault_respects|]. intros _.
  apply bind_respects; [|done]. by apply exec_respects.
Qed.

Lemma record_skipped_tests_respects (test_name pyspark_python : string)
    (per_test_output : list Byte.byte) :
  io_respects P (record_skipped_tests host test_name pyspark_python per_test_output).
Proof.
  unfold record_skipped_tests.
  apply bind_respects; [|intros; apply mret_respects].
  case_decide; [|apply mret_respects].
  intros w. unfold store_skipped_tests.
  destruct (SKIPPED_TESTS w); [|apply P_refl].
  apply bind_respects; [apply io_fault_respects|]. intros _.
  by apply exec_respects.
Qed.

Lemma finish_test_respects (test_name pyspark_python : string)
    (per_test_output : list Byte.byte) (w : World) :
  result_respects P w (finish_test host test_name pyspark_python per_test_output w).
Proof.
  unfold finish_test.
  pose proof (record_skipped_tests_respects test_name pyspark_python per_test_output w) as H.
  destruct (record_skipped_tests _ _ _ _ _) as [n w'|w']; simpl; [|by eauto].
  case_decide; simpl; eauto.
Qed.

Lemma append_to_log_respects (per_test_output : list Byte.byte) :
  io_respects P (append_to_log per_test_output).
Proof.
  unfold append_to_log.
  apply bind_respects; [apply io_fault_respects|]. intros _.
  apply bind_respects; [apply io_fault_respects|]. intros _.
  apply exec_respects. intros w. apply P_log.
Qed.



End frame.

(** ** C8: the log of failures *)

Ltac same_log_side :=
  unfold same_log; first [done | by (intros; simpl; congruence)].

Lemma prepare_same_log (host : Host) (target_dir : path) (pyspark_python : string)
    (w w1 : World) env (tmp_dir metastore_dir : path) :
  prepare host target_dir pyspark_python w = Some (env, tmp_dir, metastore_dir, w1) →
  same_log w w1.
Proof. intros H. by destruct (prepare_frame _ _ _ _ _ _ _ _ H) as (_ & _ & ? & _). Qed.

Lemma spawn_same_log (host : Host) env (test_name : string) (tmp_dir : path) :
  io_respects same_log (spawn host env test_name tmp_dir).
Proof. apply spawn_respects; same_log_side. Qed.

Lemma echo_lines_same_log (host : Host) (lines : list (list Byte.byte)) :
  io_respects same_log (echo_lines host lines).
Proof. apply echo_lines_respects; same_log_side. Qed.

Lemma finish_test_same_log (host : Host) (test_name pyspark_python : string)
    (per_test_output : list Byte.byte) (w : World) :
  result_respects same_log w
    (finish_test host test_name pyspark_python per_test_output w).
Proof. apply finish_test_respects; same_log_side. Qed.

Lemma spawn_Ok_inv (host : Host) env (test_name : string) (tmp_dir : path)
    (w w' : World) (retcode : Z) (out : list Byte.byte) :
  spawn host env test_name tmp_dir w = Ok (retcode, out) w' →
  Popen_wait host env test_name = Popen_exits retcode out.
Proof.
  unfold spawn, mbind, IO_bind. destruct (io_fault w); [|done].
  destruct (Popen_wait host env test_name); [done|].
  unfold exec, mret, IO_ret. by intros [= -> -> _].
Qed.

Lemma append_to_log_cases (out : list Byte.byte) (w : World) :
  match append_to_log out w with
  | Ok _ w' => log_file w' = Some (default [] (log_file w) ++ out)
  | Raised w' => log_file w' = log_file w
  end.
Proof.
  unfold append_to_log, mbind, IO_bind, io_fault, exec.
  destruct w as [ds us cs lf co sk fs it]; simpl.
  destruct fs as [|[] [|[] fs]]; simpl; by rewrite ?concat_readlines.
Qed.

Lemma report_failure_log (host : Host) (test_name pyspark_python : string)
    (out : list Byte.byte) (w : World) :
  ∃ w', report_failure host test_name pyspark_python out w = Exits (-1) w' ∧
        (log_file w' = log_file w ∨
         log_file w' = Some (default [] (log_file w) ++ out)).
Proof.
  unfold report_failure. eexists. split; [reflexivity|]. rewrite log_file_emit.
  unfold mbind, IO_bind. pose proof (append_to_log_cases out w) as Ha.
  destruct (append_to_log out w) as [[] wa|wa]; [|by left].
  pose proof (echo_lines_same_log host (readlines out) wa) as He.
  unfold same_log in He.
  destruct (echo_lines host (readlines out) wa) as [[] we|we];
    right; rewrite ?log_file_emit; congruence.
Qed.

Lemma run_log_of_this_run (host : Host) (target_dir : path)
    (test_name pyspark_python : string) (w : World) :
  log_file w = None →
  match run_individual_python_test host target_dir test_name pyspark_python w with
  | Returns w' => log_file w' = None
  | Exits _ w' => log_of_this_run host w'
  | Hangs => True
  end.
Proof.
  intros Hlog. unfold run_individual_python_test.
  destruct (prepare _ _ _ _) as [[[[env t] m] w1]|] eqn:Hprep; [|done].
  apply prepare_same_log in Hprep. unfold same_log in Hprep.
  pose proof (spawn_same_log host env test_name t
                (emit (LOGGER_info (Starting_test pyspark_python test_name)) w1)) as Hs.
  unfold same_log in Hs.
  destruct (spawn _ _ _ _ _) as [[rc out] w3|w3] eqn:Hspawn; simpl in Hs.
  - apply spawn_Ok_inv in Hspawn. case_decide as Hrc.
    + destruct (report_failure_log host test_name pyspark_python out w3)
        as (w' & -> & [Hl|Hl]).
      * left. congruence.
      * right. exists env, test_name, rc, out. split_and!; [done|done|].
        rewrite Hl, Hs, Hprep, Hlog. done.
    + pose proof (finish_test_same_log host test_name pyspark_python out w3) as Hf.
      unfold same_log in Hf.
      destruct (finish_test _ _ _ _ _); simpl in Hf; [congruence| |done].
      left. congruence.
  - left. simpl. congruence.
Qed.

Lemma fill_queue_respects (host : Host) (P : World → World → Prop) work
    (python_execs : list string) :
  (∀ w, P w w) → (∀ w1 w2 w3, P w1 w2 → P w2 w3 → P w1 w3) →
  (∀ e w, P w (emit e w)) →
  ∀ task_queue w,
    match fill_queue host work python_execs task_queue w with
    | inl (_, w') => P w w'
    | inr (_, w') => P w w'
    end.
Proof.
  intros P_refl P_trans P_emit.
  induction python_execs as [|e es IH]; intros q w; simpl; [done|].
  destruct (_ && _); [done|].
  destruct (python_implementation host e) as [impl|]; [|done].
  specialize (IH (foldl PriorityQueue.put q (tasks_of_exec work e impl))
                 (emit (LOGGER_info (Python_implementation_is e impl)) w)).
  destruct (fill_queue _ _ _ _ _) as [[q' w']|[st w']]; eauto.
Qed.

Lemma process_queue_log (host : Host) (target_dir : path) (fuel : nat) :
  ∀ (task_queue : list task) (w : World),
    log_file w = None →
    match process_queue host fuel target_dir task_queue w with
    | Returns w' => log_file w' = None
    | Exits _ w' => log_of_this_run host w'
    | Hangs => True
    end.
Proof.
  induction fuel as [|fuel IH]; intros q w Hlog; simpl; [done|].
  destruct (PriorityQueue.get_nowait q) as [[[pr [e g]] q']|]; [|done].
  assert (match run_individual_python_test host target_dir g e
                  (set_interrupt_in (Nat.pred <$> interrupt_in w) w) with
          | Returns w' => log_file w' = None
          | Exits _ w' => log_of_this_run host w'
          | Hangs => True
          end) as Hrun by by apply run_log_of_this_run.
  destruct (interrupt_in w) as [[|n]|]; [by left| |];
    destruct (run_individual_python_test _ _ _ _ _); try done; by apply IH.
Qed.

Lemma report_skipped_respects (P : World → World → Prop) registry :
  (∀ w, P w w) → (∀ w1 w2 w3, P w1 w2 → P w2 w3 → P w1 w3) →
  (∀ e w, P w (emit e w)) →
  ∀ w, P w (report_skipped registry w).
Proof.
  intros P_refl P_trans P_emit w. unfold report_skipped.
  generalize (merge_sort key_le (map_to_list registry)). intros items. revert w.
  induction items as [|[[e g] lines] items IH]; intros w; simpl; [done|].
  eapply P_trans; [|apply IH].
  assert (∀ ls w0, P w0 (foldl (λ w'' line, emit (LOGGER_info (Skipped_line line)) w'')
                           w0 ls)) as Hl.
  { intros ls. induction ls as [|l ls IHl]; intros w0; simpl; eauto. }
  eauto.
Qed.

Lemma main_log (host : Host) (opts : Options) (w w' : World) :
  final_world (main host opts w) = Some w' → log_of_this_run host w'.
Proof.
  unfold main.
  set (w0 := emit (LOGGER_info (Will_test_executables (python_executables opts)))
               (set_log_file None (emit (LOGGER_info Running_PySpark_tests) w))).
  assert (log_file w0 = None) as H0 by done. clearbody w0.
  destruct (work_to_do host opts) as [bad|work]; [intros [= <-]; by left|].
  match goal with |- context [fill_queue host work ?es ?q ?wq] =>
    pose proof (fill_queue_respects host same_log work es) as Hfill;
    specialize (Hfill ltac:(same_log_side) ltac:(same_log_side) ltac:(same_log_side) q wq);
    destruct (fill_queue host work es q wq) as [[tq w1]|[st w1]]
  end; unfold same_log in Hfill; simpl in Hfill.
  - match goal with |- context [process_queue host ?f ?t ?q ?wq] =>
      pose proof (process_queue_log host t f q wq) as Hpq;
      destruct (process_queue host f t q wq) as [w2|st w2|]
    end.
    + destruct (SKIPPED_TESTS _) as [registry|]; simpl.
      * intros [= <-]. left.
        rewrite (report_skipped_respects same_log registry
                   ltac:(same_log_side) ltac:(same_log_side) ltac:(same_log_side)).
        simpl. apply Hpq. destruct (isdir _ _); simpl; congruence.
      * intros [= <-]. left. simpl. apply Hpq. destruct (isdir _ _); simpl; congruence.
    + intros [= <-]. apply Hpq. destruct (isdir _ _); simpl; congruence.
    + done.
  - intros [= <-]. left. congruence.
Qed.

(** C8: when a task fails, the whole captured buffer, from its first byte
    on, is appended as it is to the log file, after what the file held;
    and a run starts by removing the log file, so that at the end of a run
    the log holds nothing or the output of the failed child of this run,
    whatever it held before. *)
Theorem C8_failure_log :
  (∀ host target_dir test_name pyspark_python w retcode per_test_output,
     subprocess_outcome host target_dir test_name pyspark_python w
       = Some (Popen_exits retcode per_test_output) →
     retcode ≠ 0%Z → io_faults w = [] →
     ∃ w', run_individual_python_test host target_dir test_name pyspark_python w
             = Exits (-1) w' ∧
           log_file w' = Some (default [] (log_file w) ++ per_test_output)) ∧
  (∀ host opts w w',
     final_world (main host opts w) = Some w' → log_of_this_run host w').
Proof.
  split; [|apply main_log].
  intros host target_dir test_name pyspark_python w rc out Hchild Hrc Hf.
  destruct (run_failure_no_fault _ _ _ _ _ _ _ Hchild Hrc Hf) as (w' & Hrun & _ & Hl).
  by exists w'.
Qed.

Lemma C8_failure_log_witness :
  ∃ w', run_individual_python_test (example_host failing_child) example_target_dir
          "pyspark.x" "python3" (set_log_file (Some failing_output) example_world)
          = Exits (-1) w' ∧
        log_file w' = Some (failing_output ++ failing_output).
Proof.
  apply (proj1 C8_failure_log (example_host failing_child) example_target_dir
           "pyspark.x" "python3" (set_log_file (Some failing_output) example_world)
           1%Z failing_output).
  - vm_compute. reflexivity.
  - done.
  - reflexivity.
Defined.

(** ** C7: the reporter always ends the process *)





(** The write to the log raises: the exception is logged, nothing is
    echoed, the summary is printed. *)
Example reporter_with_failing_log :
  (console <$> final_world
     (run_individual_python_test (example_host failing_child) example_target_dir
        "pyspark.x" "python3" (set_io_faults [false; false; true] example_world)))
  = Some [LOGGER_info (Starting_test "python3" "pyspark.x");
          LOGGER_exception "Got an exception while trying to print failed test output";
          Print_red (had_test_failures "pyspark.x" "python3")].
Proof. vm_compute. reflexivity. Qed.

(** ** C5 and C4: the skipped tests of a successful task *)

Lemma run_success_no_fault (host : Host) (target_dir : path)
    (test_name pyspark_python : string) (w : World) (per_test_output : list Byte.byte)
    (registry : gmap (string * string) (list text)) :
  subprocess_outcome host target_dir test_name pyspark_python w
    = Some (Popen_exits 0 per_test_output) →
  io_faults w = [] → SKIPPED_TESTS w = Some registry →
  ∃ w', run_individual_python_test host target_dir test_name pyspark_python w
          = Returns w' ∧
        SKIPPED_TESTS w' =
          Some (if decide (0 < length (find_skipped_tests host per_test_output))
                then <[(pyspark_python, test_name) :=
                         find_skipped_tests host per_test_output]> registry
                else registry).
Proof.
  intros (env & t & m & w1 & Hprep & Hchild)%subprocess_outcome_inv Hf Hreg.
  destruct (prepare_frame _ _ _ _ _ _ _ _ Hprep) as (Hf1 & _ & _ & Hs1 & _).
  rewrite (run_spawned _ _ _ _ _ _ _ _ _ _ _ Hprep Hchild) by by rewrite Hf.
  rewrite decide_False by (intros H; by apply H).
  unfold finish_test, record_skipped_tests.
  set (w3 := after_spawn pyspark_python test_name t w1).
  assert (io_faults w3 = []) as Hf3 by (simpl; by rewrite Hf1, Hf).
  assert (SKIPPED_TESTS w3 = Some registry) as Hs3 by (simpl; by rewrite Hs1).
  clearbody w3. unfold mbind, IO_bind.
  destruct (decide (0 < length (find_skipped_tests host per_test_output))) as [Hk|Hk].
  - unfold store_skipped_tests. rewrite Hs3. unfold mbind, IO_bind.
    rewrite io_fault_nil by done. unfold exec, mret, IO_ret.
    rewrite decide_True by lia. by eexists.
  - unfold mret, IO_ret. rewrite decide_False by lia. by eexists.
Qed.

(** C5: a task whose child exits 0 with [K] lines of its buffer passing
    the skip filter leaves, when [K >= 1], the registry with the entry of
    its key (executable, goal) equal to these [K] decoded lines in the
    order of the buffer, and leaves the registry as it was when [K = 0]. *)
Theorem C5_skip_registry (host : Host) (target_dir : path)
    (test_name pyspark_python : string) (w : World) (per_test_output : list Byte.byte)
    (registry : gmap (string * string) (list text)) :
  subprocess_outcome host target_dir test_name pyspark_python w
    = Some (Popen_exits 0 per_test_output) →
  io_faults w = [] → SKIPPED_TESTS w = Some registry →
  let matched := filter (λ line, is_skipped_line line = true)
                   (decode host <$> readlines per_test_output) in
  ∃ w' registry',
    run_individual_python_test host target_dir test_name pyspark_python w = Returns w' ∧
    SKIPPED_TESTS w' = Some registry' ∧
    (1 ≤ length matched → registry' !! (pyspark_python, test_name) = Some matched) ∧
    (length matched = 0 → registry' = registry) ∧
    (∀ key, key ≠ (pyspark_python, test_name) → registry' !! key = registry !! key).
Proof.
  intros Hchild Hf Hreg matched.
  destruct (run_success_no_fault _ _ _ _ _ _ _ Hchild Hf Hreg) as (w' & Hrun & Hs).
  fold matched in Hs. change (find_skipped_tests host per_test_output) with matched in Hs.
  eexists w', _. split; [done|]. split; [done|].
  destruct (decide (0 < length matched)) as [Hk|Hk].
  - split_and!; [by rewrite lookup_insert_eq|lia|].
    intros key Hkey. by rewrite lookup_insert_ne.
  - split_and!; [lia|done|done].
Qed.

Lemma C5_skip_registry_witness :
  let matched := filter (λ line, is_skipped_line line = true)
                   (decode (example_host skipping_child) <$> readlines skipping_output) in
  ∃ w' registry',
    run_individual_python_test (example_host skipping_child) example_target_dir
      "pyspark.x" "python3" example_world = Returns w' ∧
    SKIPPED_TESTS w' = Some registry' ∧
    (1 ≤ length matched → registry' !! ("python3", "pyspark.x") = Some matched) ∧
    (length matched = 0 → registry' = ∅) ∧
    (∀ key, key ≠ ("python3", "pyspark.x") → registry' !! key = (∅ : gmap _ _) !! key).
Proof.
  apply (C5_skip_registry (example_host skipping_child) example_target_dir
           "pyspark.x" "python3" example_world skipping_output ∅).
  - vm_compute. reflexivity.
  - reflexivity.
  - reflexivity.
Defined.

Example skipped_of_skipping_output :
  find_skipped_tests (example_host skipping_child) skipping_output
    = [codepoints (String.append "test_a (pyspark.b) ... skipped 'no pandas'" LF)].
Proof. vm_compute. reflexivity. Qed.

(** C4 (as the code has it): an error while the skipped tests of a
    successful task are recorded, be it that the registry is not set or
    that the write to it raises, is fatal: the runner prints a message in
    red and ends the process with status -1. *)
Theorem C4_skip_recording_error_is_fatal (host : Host) (target_dir : path)
    (test_name pyspark_python : string) (w : World) (per_test_output : list Byte.byte) :
  subprocess_outcome host target_dir test_name pyspark_python w
    = Some (Popen_exits 0 per_test_output) →
  head (io_faults w) ≠ Some true →
  find_skipped_tests host per_test_output ≠ [] →
  SKIPPED_TESTS w = None ∨ io_faults w !! 1 = Some true →
  ∃ w', run_individual_python_test host target_dir test_name pyspark_python w
          = Exits (-1) w' ∧
        last (console w') = Some (Print_red got_exception_storing).
Proof.
  intros (env & t & m & w1 & Hprep & Hchild)%subprocess_outcome_inv Hf Hk Hcause.
  destruct (prepare_frame _ _ _ _ _ _ _ _ Hprep) as (Hf1 & _ & _ & Hs1 & _).
  rewrite (run_spawned _ _ _ _ _ _ _ _ _ _ _ Hprep Hchild Hf).
  rewrite decide_False by (intros H; by apply H).
  unfold finish_test, record_skipped_tests.
  set (w3 := after_spawn pyspark_python test_name t w1).
  assert (io_faults w3 = tail (io_faults w)) as Hf3 by (simpl; by rewrite Hf1).
  assert (SKIPPED_TESTS w3 = SKIPPED_TESTS w) as Hs3 by (simpl; by rewrite Hs1).
  clearbody w3. unfold mbind, IO_bind.
  rewrite decide_True by (destruct (find_skipped_tests host per_test_output);
                          [done|simpl; lia]).
  unfold store_skipped_tests. rewrite Hs3.
  destruct (SKIPPED_TESTS w) as [registry|].
  - destruct Hcause as [?|Hfault]; [done|].
    unfold mbind, IO_bind, io_fault. rewrite Hf3.
    destruct (io_faults w) as [|b [|[] fs]]; simpl in *; try done.
    eexists. split; [reflexivity|]. simpl. apply last_snoc.
  - eexists. split; [reflexivity|]. simpl. apply last_snoc.
Qed.

Lemma C4_skip_recording_witness :
  ∃ w', run_individual_python_test (example_host skipping_child) example_target_dir
          "pyspark.x" "python3" (set_SKIPPED_TESTS None example_world) = Exits (-1) w' ∧
        last (console w') = Some (Print_red got_exception_storing).
Proof.
  apply (C4_skip_recording_error_is_fatal (example_host skipping_child)
           example_target_dir "pyspark.x" "python3"
           (set_SKIPPED_TESTS None example_world) skipping_output).
  - vm_compute. reflexivity.
  - simpl. discriminate.
  - vm_compute. discriminate.
  - by left.
Defined.

(** C4 (as stated) fails: the child exits 0 and prints one skipped test,
    the registry is not set, and the process ends with status -1. *)
Lemma C4_never_fatal_counterexample :
  subprocess_outcome (example_host skipping_child) example_target_dir "pyspark.x"
    "python3" (set_SKIPPED_TESTS None example_world)
    = Some (Popen_exits 0 skipping_output) ∧
  exit_status
    (run_individual_python_test (example_host skipping_child) example_target_dir
       "pyspark.x" "python3" (set_SKIPPED_TESTS None example_world))
    = Some (-1)%Z.
Proof. split; vm_compute; reflexivity. Qed.

(** ** C10: the environment of the child *)

Lemma initial_env_other (host : Host) (pyspark_python k : string) :
  k ∉ overridden_keys →
  initial_env host pyspark_python !! k = Some <$> (os_environ host !! k).
Proof.
  intros Hk. unfold initial_env.
  rewrite lookup_union_r, lookup_fmap; [done|].
  apply not_elem_of_list_to_map_1. simpl.
  intros Hin. apply Hk. unfold overridden_keys.
  set_solver.
Qed.

Lemma prepare_env (host : Host) (target_dir : path) (pyspark_python : string)
    (w w1 : World) env (tmp_dir metastore_dir : path) :
  prepare host target_dir pyspark_python w = Some (env, tmp_dir, metastore_dir, w1) →
  env = <["PYSPARK_SUBMIT_ARGS" :=
            Some (String.concat " " (spark_args tmp_dir metastore_dir))]>
          (<["TMPDIR" := Some (path_str tmp_dir)]> (initial_env host pyspark_python)).
Proof.
  unfold prepare. intros H.
  destruct (make_tmp_dir _ _) as [[t wt]|]; [|done].
  destruct (make_metastore_dir _ _) as [[m wm]|]; [|done].
  by injection H as <- <- <- _.
Qed.

(** C10: the environment given to the child of a task is the environment
    of the parent in which exactly the eight keys SPARK_DIST_CLASSPATH,
    SPARK_TESTING, SPARK_PREPEND_CLASSES, PYSPARK_PYTHON,
    PYSPARK_DRIVER_PYTHON, PYARROW_IGNORE_TIMEZONE, TMPDIR and
    PYSPARK_SUBMIT_ARGS are set by the runner; every other variable is
    present with its inherited value, or absent, as in the parent. *)
Theorem C10_child_environment (host : Host) (target_dir : path)
    (pyspark_python : string) (w w1 : World) env (tmp_dir metastore_dir : path) :
  prepare host target_dir pyspark_python w = Some (env, tmp_dir, metastore_dir, w1) →
  (∀ k, k ∉ overridden_keys → env !! k = Some <$> (os_environ host !! k)) ∧
  env !! "SPARK_DIST_CLASSPATH" = Some (Some (SPARK_DIST_CLASSPATH host)) ∧
  env !! "SPARK_TESTING" = Some (Some "1") ∧
  env !! "SPARK_PREPEND_CLASSES" = Some (Some "1") ∧
  env !! "PYSPARK_PYTHON" = Some (which host pyspark_python) ∧
  env !! "PYSPARK_DRIVER_PYTHON" = Some (which host pyspark_python) ∧
  env !! "PYARROW_IGNORE_TIMEZONE" = Some (Some "1") ∧
  env !! "TMPDIR" = Some (Some (path_str tmp_dir)) ∧
  env !! "PYSPARK_SUBMIT_ARGS"
    = Some (Some (String.concat " " (spark_args tmp_dir metastore_dir))).
Proof.
  intros ->%prepare_env. split.
  - intros k Hk.
    rewrite !lookup_insert_ne by (intros <-; apply Hk; unfold overridden_keys; set_solver).
    by apply initial_env_other.
  - unfold initial_env.
    split_and!;
      rewrite ?lookup_insert_eq; try done;
      rewrite ?(lookup_insert_ne _ "PYSPARK_SUBMIT_ARGS") by done;
      rewrite ?lookup_insert_eq; try done;
      rewrite ?(lookup_insert_ne _ "TMPDIR") by done;
      by apply lookup_union_Some_l.
Qed.

Lemma C10_child_environment_witness :
  ∃ env tmp_dir metastore_dir w1,
    prepare (example_host failing_child) example_target_dir "python3" example_world
      = Some (env, tmp_dir, metastore_dir, w1) ∧
    env !! "HOME" = Some (Some "/root") ∧
    env !! "SPARK_TESTING" = Some (Some "1") ∧
    env !! "TMPDIR" = Some (Some (path_str tmp_dir)).
Proof.
  destruct (prepare (example_host failing_child) example_target_dir "python3"
              example_world) as [[[[env t] m] w1]|] eqn:Hprep; [|by vm_compute in Hprep].
  exists env, t, m, w1. split; [done|].
  destruct (C10_child_environment _ _ _ _ _ _ _ _ Hprep)
    as (Hother & _ & Ht & _ & _ & _ & _ & Htmp & _).
  split; [|done]. rewrite Hother; [done|]. unfold overridden_keys. set_solver.
Defined.

(** ** C3: where the two directories of a task are *)

(** The loop of lines 83-84 stays in [target_dir]. *)
Lemma retry_tmp_dir_child (ds : gset path) (target_dir : path) (us : list string) :
  ∀ (u : string) tmp_dir us',
    retry_tmp_dir ds target_dir (path_join target_dir u) us = Some (tmp_dir, us') →
    (∃ u', tmp_dir = path_join target_dir u') ∧ tmp_dir ∉ ds.
Proof.
  induction us as [|u0 us IH]; intros u t us'; simpl.
  - case_decide; [done|]. intros [= <- <-]. eauto.
  - case_decide; [by apply IH|]. intros [= <- <-]. eauto.
Qed.

(** The loop of lines 88-89 goes down into the directory it found. *)
Lemma retry_metastore_dir_below (ds : gset path) (us : list string) :
  ∀ (metastore_dir : path) result us',
    retry_metastore_dir ds metastore_dir us = Some (result, us') →
    metastore_dir `prefix_of` result ∧ result ∉ ds ∧
    (metastore_dir ∈ ds → metastore_dir ≠ result).
Proof.
  induction us as [|u0 us IH]; intros m r us'; simpl.
  - case_decide; [done|]. intros [= <- <-]. done.
  - case_decide as Hm.
    + intros (Hpre & Hr & _)%IH. split_and!; [|done|].
      * etrans; [|done]. by exists [u0].
      * intros _ ->. done.
    + intros [= <- <-]. done.
Qed.

(** C3, at the failing input: [uuid4] gives u1, u2, u3 and another process
    makes [target/u1/u2] right after [os.mkdir(target/u1)].  The nested
    directory made is [target/u1/u2/u3]: it lies inside the directory that
    collided and is not a direct child of the working directory. *)
Theorem C3_nested_retry_leaves_working_directory :
  ∃ env w1,
    prepare (example_host failing_child) example_target_dir "python3" racing_world
      = Some (env, example_target_dir ++ ["u1"],
              example_target_dir ++ ["u1"; "u2"; "u3"], w1) ∧
    ∀ name, path_join (example_target_dir ++ ["u1"]) name
              ≠ example_target_dir ++ ["u1"; "u2"; "u3"].
Proof.
  eexists _, _. split; [vm_compute; reflexivity|].
  intros name. unfold path_join, example_target_dir. simpl. congruence.
Qed.

(** ** C6: the status the process ends with *)







Lemma get_nowait_spec (q : list task) :
  heapq.heap_ordered task_lt q →
  match PriorityQueue.get_nowait q with
  | None => q = []
  | Some (t, q') => heapq.heap_ordered task_lt q' ∧ q ≡ₚ t :: q'
  end.
Proof.
  intros Hq. unfold PriorityQueue.get_nowait. destruct q as [|t0 q0]; [done|].
  destruct (heapq.heappop task_lt (t0 :: q0)) as [[t q']|] eqn:Hpop.
  - destruct (heapq_facts.heappop_spec task_lt task_lt_irrefl task_lt_trans
                task_lt_total _ _ _ Hq Hpop) as (Hord & Hperm & _). done.
  - by apply heapq_facts.heappop_None in Hpop.
Qed.




Lemma fill_queue_spec (host : Host) work (python_execs : list string) :
  ∀ task_queue w task_queue' w',
    heapq.heap_ordered task_lt task_queue →
    fill_queue host work python_execs task_queue w = inl (task_queue', w') →
    heapq.heap_ordered task_lt task_queue' ∧
    task_queue' ≡ₚ task_queue ++
      (python_exec ← python_execs;
       match python_implementation host python_exec with
       | None => []
       | Some implementation => tasks_of_exec work python_exec implementation
       end).
Proof.
  induction python_execs as [|e es IH]; intros q w q' w' Hq; simpl.
  - intros [= <- _]. by rewrite app_nil_r.
  - destruct (_ && _); [done|].
    destruct (python_implementation host e) as [impl|]; [|done].
    destruct (put_all_from (tasks_of_exec work e impl) q Hq) as [Hord Hperm].
    intros Hfill. destruct (IH _ _ _ _ Hord Hfill) as [Hord' Hperm'].
    split; [done|]. rewrite Hperm', Hperm. by rewrite <- app_assoc.
Qed.





Example script_all_tasks_succeed :
  exit_status (script (example_host skipping_child) (example_options ["b"; "a"])
                 example_world) = Some 0%Z.
Proof. vm_compute. reflexivity. Qed.

Example script_first_failure_ends_the_run :
  exit_status (script (example_host failing_child) (example_options ["b"; "a"])
                 example_world) = Some (-1)%Z.
Proof. vm_compute. reflexivity. Qed.

(** * Further properties of the runner *)

(** ** The two directories of a task *)

Lemma prepare_dirs (host : Host) (target_dir : path) (pyspark_python : string)
    (w w1 : World) env (tmp_dir metastore_dir : path) :
  prepare host target_dir pyspark_python w = Some (env, tmp_dir, metastore_dir, w1) →
  (∃ u, tmp_dir = path_join target_dir u) ∧ tmp_dir ∉ dirs w ∧
  tmp_dir `prefix_of` metastore_dir ∧ tmp_dir ≠ metastore_dir ∧
  dirs w1 = {[metastore_dir]} ∪
              (list_to_set (default [] (head (concurrent_mkdirs w)))
                 ∪ ({[tmp_dir]} ∪ dirs w)).
Proof.
  unfold prepare, make_tmp_dir, make_metastore_dir. intros H.
  destruct (uuids w) as [|u us]; [done|].
  destruct (retry_tmp_dir _ _ _ _) as [[t us1]|] eqn:Ht; [|done].
  apply retry_tmp_dir_child in Ht as [Hchild Hfresh].
  set (wo := others_mkdir (mkdir t (set_uuids us1 w))) in H.
  assert (uuids wo = us1 ∧
          dirs wo = list_to_set (default [] (head (concurrent_mkdirs w)))
                      ∪ ({[t]} ∪ dirs w)) as [Hu Hd].
  { unfold wo, others_mkdir. simpl.
    destruct (concurrent_mkdirs w) as [|batch rest]; simpl; [|done].
    split; [done|]. set_solver. }
  clearbody wo. rewrite Hu in H. destruct us1 as [|u1 us1]; [done|].
  destruct (retry_metastore_dir _ _ _) as [[m us2]|] eqn:Hm; [|done].
  apply retry_metastore_dir_below in Hm as (Hpre & Hm & _).
  injection H as _ <- <- <-.
  assert (t `prefix_of` m) as Htm by (etrans; [|done]; by exists [u1]).
  split_and!; try done.
  - intros ->. apply Hm. rewrite Hd. set_solver.
  - simpl. by rewrite Hd.
Qed.




(** The working directory of a task is a direct child of [target_dir]
    that was not a directory before; the nested directory lies strictly
    below the working directory; both exist once [prepare] has returned. *)
Theorem prepare_directories_are_new (host : Host) (target_dir : path)
    (pyspark_python : string) (w w1 : World) env (tmp_dir metastore_dir : path) :
  prepare host target_dir pyspark_python w = Some (env, tmp_dir, metastore_dir, w1) →
  (∃ u, tmp_dir = path_join target_dir u) ∧ tmp_dir ∉ dirs w ∧
  tmp_dir `prefix_of` metastore_dir ∧ tmp_dir ≠ metastore_dir ∧
  tmp_dir ∈ dirs w1 ∧ metastore_dir ∈ dirs w1.
Proof.
  intros (Hchild & Hfresh & Hpre & Hne & Hd)%prepare_dirs.
  split_and!; try done; rewrite Hd; set_solver.
Qed.

Lemma prepare_directories_are_new_witness :
  ∃ env tmp_dir metastore_dir w1,
    prepare (example_host failing_child) example_target_dir "python3" racing_world
      = Some (env, tmp_dir, metastore_dir, w1) ∧
    (∃ u, tmp_dir = path_join example_target_dir u) ∧ tmp_dir ∉ dirs racing_world ∧
    tmp_dir `prefix_of` metastore_dir ∧ tmp_dir ≠ metastore_dir ∧
    tmp_dir ∈ dirs w1 ∧ metastore_dir ∈ dirs w1.
Proof.
  destruct (prepare (example_host failing_child) example_target_dir "python3"
              racing_world) as [[[[env t] m] w1]|] eqn:Hprep; [|by vm_compute in Hprep].
  exists env, t, m, w1. split; [done|].
  exact (prepare_directories_are_new _ _ _ _ _ _ _ _ Hprep).
Defined.

(** ** Clean-up of the working directory *)






(** When the spawn or the wait raises, the process ends with status 1
    and the two directories of the task are left behind. *)
Theorem spawn_exception_leaves_directories (host : Host) (target_dir : path)
    (test_name pyspark_python : string) (w w1 : World) env
    (tmp_dir metastore_dir : path) :
  prepare host target_dir pyspark_python w = Some (env, tmp_dir, metastore_dir, w1) →
  Popen_wait host env test_name = Popen_raises ∨ head (io_faults w) = Some true →
  ∃ w', run_individual_python_test host target_dir test_name pyspark_python w
          = Exits 1 w' ∧
        tmp_dir ∈ dirs w' ∧ metastore_dir ∈ dirs w' ∧
        last (console w') = Some (LOGGER_exception "Got exception while running").
Proof.
  intros Hprep Hcause. unfold run_individual_python_test. rewrite Hprep.
  destruct (prepare_frame _ _ _ _ _ _ _ _ Hprep) as (Hf & _).
  destruct (prepare_dirs _ _ _ _ _ _ _ _ Hprep) as (_ & _ & _ & _ & Hd).
  assert (tmp_dir ∈ dirs w1 ∧ metastore_dir ∈ dirs w1) as [Ht Hm]
    by (rewrite Hd; set_solver).
  unfold spawn, mbind, IO_bind, io_fault. simpl. rewrite Hf.
  destruct (io_faults w) as [|[] fs]; simpl in *.
  - destruct Hcause as [->|]; [|done]. eexists. split; [reflexivity|].
    simpl. split_and!; try done. apply last_snoc.
  - eexists. split; [reflexivity|]. simpl. split_and!; try done. apply last_snoc.
  - destruct Hcause as [->|]; [|done]. eexists. split; [reflexivity|].
    simpl. split_and!; try done. apply last_snoc.
Qed.

Lemma spawn_exception_leaves_directories_witness :
  ∃ env tmp_dir metastore_dir w1 w',
    prepare (example_host (λ _, Popen_raises)) example_target_dir "python3" example_world
      = Some (env, tmp_dir, metastore_dir, w1) ∧
    run_individual_python_test (example_host (λ _, Popen_raises)) example_target_dir
      "pyspark.x" "python3" example_world = Exits 1 w' ∧
    tmp_dir ∈ dirs w' ∧ metastore_dir ∈ dirs w' ∧
    last (console w') = Some (LOGGER_exception "Got exception while running").
Proof.
  destruct (prepare (example_host (λ _, Popen_raises)) example_target_dir "python3"
              example_world) as [[[[env t] m] w1]|] eqn:Hprep; [|by vm_compute in Hprep].
  destruct (spawn_exception_leaves_directories (example_host (λ _, Popen_raises))
              example_target_dir "pyspark.x" "python3" example_world w1 env t m Hprep
              (or_introl eq_refl)) as (w' & Hrun & Hrest).
  by exists env, t, m, w1, w'.
Defined.

(** ** The skip filter, exactly *)

(** A decoded line is kept as a skipped test exactly when it holds, in
    this order: [test_], any characters, [ (pyspark.], any characters,
    [) ], any three characters, a space, and [skip] or [SKIP]; none of the
    characters in between is a newline.  The three dots of the pattern
    stand for any three characters. *)
Theorem is_skipped_line_iff (line : text) :
  is_skipped_line line = true ↔
  ∃ pre a b c1 c2 c3 kw post,
    line = pre ++ codepoints "test_" ++ a ++ codepoints " (pyspark." ++ b
             ++ codepoints ") " ++ [c1; c2; c3] ++ codepoints " " ++ kw ++ post ∧
    Forall (λ c, c ≠ 10%N) a ∧ Forall (λ c, c ≠ 10%N) b ∧
    c1 ≠ 10%N ∧ c2 ≠ 10%N ∧ c3 ≠ 10%N ∧
    (kw = codepoints "skip" ∨ kw = codepoints "SKIP").
Proof.
  unfold is_skipped_line. rewrite re_facts.search_spec. split.
  - intros (pre & p & post & -> & Hp). apply SKIP_PATTERN_matches in Hp
      as (a & b & c1 & c2 & c3 & kw & -> & Hrest).
    exists pre, a, b, c1, c2, c3, kw, post. split; [|done].
    by rewrite <- !app_assoc.
  - intros (pre & a & b & c1 & c2 & c3 & kw & post & -> & Hrest).
    exists pre, (codepoints "test_" ++ a ++ codepoints " (pyspark." ++ b
                   ++ codepoints ") " ++ [c1; c2; c3] ++ codepoints " " ++ kw), post.
    split; [by rewrite <- !app_assoc|].
    apply SKIP_PATTERN_matches. by exists a, b, c1, c2, c3, kw.
Qed.

(** A line of another package, or with another casing of the word, is
    never kept. *)
Example skip_filter_casing :
  is_skipped_line (codepoints "test_a (pyspark.b) ... Skipped") = false.
Proof. vm_compute. reflexivity. Qed.

(** ** The modules that can be tested *)

Lemma python_modules_lookup (host : Host) (n : string) (m : PyModule) :
  python_modules host !! n = Some m →
  name m = n ∧ python_test_goals m ≠ [] ∧ n ≠ "root" ∧ m ∈ all_modules host.
Proof.
  unfold python_modules. intros H%elem_of_list_to_map_2.
  apply elem_of_reverse, list_elem_of_fmap in H as (m' & [= -> ->] & Hm).
  apply list_elem_of_filter in Hm as [[Hg Hr] Hm]. done.
Qed.

Lemma python_modules_no_root (host : Host) : python_modules host !! "root" = None.
Proof.
  destruct (python_modules host !! "root") as [m|] eqn:Hm; [|done].
  by apply python_modules_lookup in Hm as (_ & _ & ? & _).
Qed.

(** [python_modules] holds, under their own names, modules of
    [all_modules] that have test goals and are not named [root], and it
    holds an entry for the name of every such module; in particular [root]
    is never a name of it. *)
Theorem python_modules_entries (host : Host) :
  (∀ n m, python_modules host !! n = Some m →
          name m = n ∧ python_test_goals m ≠ [] ∧ m ∈ all_modules host) ∧
  python_modules host !! "root" = None ∧
  (∀ m, m ∈ all_modules host → python_test_goals m ≠ [] → name m ≠ "root" →
        is_Some (python_modules host !! name m)).
Proof.
  split_and!.
  - intros n m (? & ? & _ & ?)%python_modules_lookup. done.
  - destruct (python_modules host !! "root") as [m|] eqn:Hm; [|done].
    by apply python_modules_lookup in Hm as (_ & _ & ? & _).
  - intros m Hm Hg Hr.
    destruct (python_modules host !! name m) as [m'|] eqn:Hl; [by eexists|].
    exfalso. unfold python_modules in Hl.
    apply not_elem_of_list_to_map in Hl. apply Hl.
    apply list_elem_of_fmap. exists (name m, m). split; [done|].
    apply elem_of_reverse, list_elem_of_fmap. exists m. split; [done|].
    by apply list_elem_of_filter.
Qed.

Lemma modules_to_test_inr (host : Host) (names : list string) : ∀ ms,
  modules_to_test host names = inr ms ↔
  Forall2 (λ n m, python_modules host !! n = Some m) names ms.
Proof.
  induction names as [|n names IH]; intros ms; simpl.
  - split; [intros [= <-]; constructor|by intros ->%Forall2_nil_inv_l].
  - destruct (python_modules host !! n) as [m|] eqn:Hn.
    + destruct (modules_to_test host names) as [bad|ms'] eqn:Hrest.
      * split; [done|]. intros (m' & ms'' & _ & H%IH & _)%Forall2_cons_inv_l. done.
      * split.
        -- intros [= <-]. constructor; [done|]. by apply IH.
        -- intros (m' & ms'' & Hm' & H%IH & ->)%Forall2_cons_inv_l. congruence.
    + split; [done|]. intros (m' & ms'' & Hm' & _)%Forall2_cons_inv_l. congruence.
Qed.

Lemma modules_to_test_inl (host : Host) (names : list string) : ∀ bad,
  modules_to_test host names = inl bad ↔
  ∃ pre post, names = pre ++ bad :: post ∧ python_modules host !! bad = None ∧
              Forall (λ n, is_Some (python_modules host !! n)) pre.
Proof.
  induction names as [|n names IH]; intros bad; simpl.
  - split; [done|]. intros (pre & post & H & _). by destruct pre.
  - destruct (python_modules host !! n) as [m|] eqn:Hn.
    + destruct (modules_to_test host names) as [bad'|ms'] eqn:Hrest.
      * split.
        -- intros [= ->]. destruct (proj1 (IH bad) eq_refl) as (pre & post & -> & ? & ?).
           exists (n :: pre), post. split_and!; [done|done|]. constructor; [by eexists|done].
        -- intros (pre & post & Hs & Hb & Hpre). destruct pre as [|p pre]; simpl in Hs.
           ++ injection Hs as -> _. congruence.
           ++ injection Hs as -> ->. apply Forall_cons in Hpre as [_ Hpre].
              f_equal. assert (inl bad' = (inl bad : string + list PyModule)) as [= ->];
                [|done].
              apply IH. by exists pre, post.
      * split; [done|]. intros (pre & post & Hs & Hb & Hpre).
        destruct pre as [|p pre]; simpl in Hs.
        -- injection Hs as -> _. congruence.
        -- injection Hs as -> ->. apply Forall_cons in Hpre as [_ Hpre].
           assert (inr ms' = (inl bad : string + list PyModule)) as [=]. apply IH.
           by exists pre, post.
    + split.
      * intros [= <-]. by exists [], names.
      * intros (pre & post & Hs & Hb & Hpre). destruct pre as [|p pre]; simpl in Hs.
        -- by injection Hs as -> _.
        -- injection Hs as -> ->. apply Forall_cons in Hpre as [[? ?] _]. congruence.
Qed.

(** Without [--testnames], the first name of [--modules] that is not in
    [python_modules] ends the run with status -1 at once: one more line is
    printed, no directory is made, no name is drawn and the registry is
    not touched; the log file is already removed. *)
Theorem unknown_module_ends_run (host : Host) (opts : Options) (w : World)
    (pre post : list string) (bad : string) :
  testnames opts = None → modules opts = pre ++ bad :: post →
  Forall (λ n, is_Some (python_modules host !! n)) pre →
  python_modules host !! bad = None →
  ∃ w' msg,
    main host opts w = Exits (-1) w' ∧
    console w' = console w ++ [LOGGER_info Running_PySpark_tests;
                               LOGGER_info (Will_test_executables (python_executables opts));
                               Print_str msg] ∧
    dirs w' = dirs w ∧ uuids w' = uuids w ∧ SKIPPED_TESTS w' = SKIPPED_TESTS w ∧
    log_file w' = None.
Proof.
  intros Ht Hm Hpre Hbad. unfold main, work_to_do. rewrite Ht.
  assert (modules_to_test host (modules opts) = inl bad) as ->.
  { apply modules_to_test_inl. by exists pre, post. }
  eexists _, _. split; [reflexivity|]. simpl. split_and!; try done.
  by rewrite <- !app_assoc.
Qed.

Lemma unknown_module_ends_run_witness :
  ∃ w' msg,
    main (example_host failing_child)
      {| python_executables := ["python3"]; modules := ["root"]; testnames := None;
         parallelism := 4; verbose := false |} example_world = Exits (-1) w' ∧
    console w' = console example_world
                   ++ [LOGGER_info Running_PySpark_tests;
                       LOGGER_info (Will_test_executables ["python3"]);
                       Print_str msg] ∧
    dirs w' = dirs example_world ∧ uuids w' = uuids example_world ∧
    SKIPPED_TESTS w' = SKIPPED_TESTS example_world ∧ log_file w' = None.
Proof.
  apply (unknown_module_ends_run (example_host failing_child)
           {| python_executables := ["python3"]; modules := ["root"]; testnames := None;
              parallelism := 4; verbose := false |} example_world [] [] "root").
  - reflexivity.
  - reflexivity.
  - constructor.
  - apply python_modules_no_root.
Defined.

(** ** The final report of skipped tests *)

Lemma pair_le_trans (a b c : string * string) : pair_le a b → pair_le b c → pair_le a c.
Proof.
  apply (heapq_facts.le_trans pair_lt pair_lt_trans pair_lt_total).
Qed.

Lemma pair_le_total (a b : string * string) : pair_le a b ∨ pair_le b a.
Proof.
  unfold pair_le. destruct (pair_lt b a) eqn:Hba; [|by left]. right.
  destruct (pair_lt a b) eqn:Hab; [|done].
  pose proof (pair_lt_trans _ _ _ Hab Hba) as H. by rewrite pair_lt_irrefl in H.
Qed.

Lemma key_le_trans : Transitive key_le.
Proof. intros a b c. unfold key_le. apply pair_le_trans. Qed.

Lemma key_le_total : Total key_le.
Proof. intros a b. unfold key_le. apply pair_le_total. Qed.

Lemma report_lines_console (lines : list text) : ∀ w : World,
  console (foldl (λ w'' line, emit (LOGGER_info (Skipped_line line)) w'') w lines)
    = console w ++ ((λ line, LOGGER_info (Skipped_line line)) <$> lines).
Proof.
  induction lines as [|l lines IH]; intros w; simpl; [by rewrite app_nil_r|].
  rewrite IH. simpl. by rewrite <- app_assoc.
Qed.

Lemma report_items_console (items : list ((string * string) * list text)) :
  ∀ w : World,
    console
      (foldl (λ w' item,
                let '((pyspark_python, test_name), lines) := item in
                foldl (λ w'' line, emit (LOGGER_info (Skipped_line line)) w'')
                  (emit (LOGGER_info (Skipped_tests_in test_name pyspark_python)) w')
                  lines) w items)
      = console w ++ (items ≫= report_of_item).
Proof.
  induction items as [|[[e t] lines] items IH]; intros w; simpl;
    [by rewrite app_nil_r|].
  rewrite IH, report_lines_console. simpl. unfold report_of_item at 2. simpl.
  by rewrite <- !app_assoc.
Qed.

(** The final report names every entry of the registry once, in the
    increasing order of the keys (executable, test name) under Python's
    tuple comparison, each entry as one heading followed by its lines in
    their stored order. *)
Theorem final_report_sorted_and_complete
    (registry : gmap (string * string) (list text)) (w : World) :
  ∃ items,
    console (report_skipped registry w) = console w ++ (items ≫= report_of_item) ∧
    items ≡ₚ map_to_list registry ∧
    StronglySorted key_le items ∧
    (∀ key lines, (key, lines) ∈ items ↔ registry !! key = Some lines).
Proof.
  exists (merge_sort key_le (map_to_list registry)). split_and!.
  - unfold report_skipped. apply report_items_console.
  - apply merge_sort_Permutation.
  - apply (@StronglySorted_merge_sort _ key_le _ key_le_trans key_le_total).
  - intros key lines. rewrite merge_sort_Permutation. apply elem_of_map_to_list.
Qed.

Example final_report_of_two_entries :
  console (report_skipped
             (<[("python3", "b") := [codepoints "y"]]>
                (<[("python3", "a") := [codepoints "x"]]> ∅))
             example_world)
  = [LOGGER_info (Skipped_tests_in "a" "python3"); LOGGER_info (Skipped_line (codepoints "x"));
     LOGGER_info (Skipped_tests_in "b" "python3"); LOGGER_info (Skipped_line (codepoints "y"))].
Proof. vm_compute. reflexivity. Qed.

(** ** What is put in the queue, and in which order it is taken *)

Lemma tasks_of_exec_aux (python_exec implementation : string) (t : task)
    (mods : list PyModule) :
  t ∈ tasks_of_exec (inl mods) python_exec implementation →
  t.2.1 = python_exec ∧ priority t = goal_priority (test_goal t) ∧
  ∃ m, m ∈ mods ∧ implementation ∉ excluded_python_implementations m ∧
       test_goal t ∈ python_test_goals m.
Proof.
  destruct t as [pr [e g]]. unfold priority, test_goal. simpl.
  rewrite list_elem_of_bind.
  intros (m & (g' & [= -> -> ->] & Hg)%list_elem_of_fmap
            & [Hex Hm]%list_elem_of_filter).
  split_and!; [done|done|]. by exists m.
Qed.


Lemma drain_cons (q q' : list task) (t : task) :
  heapq.heap_ordered task_lt q → PriorityQueue.get_nowait q = Some (t, q') →
  drain q = t :: drain q'.
Proof.
  intros Hq Hpop. pose proof (get_nowait_spec q Hq) as Hspec.
  rewrite Hpop in Hspec. destruct Hspec as [_ Hperm].
  unfold drain. rewrite (Permutation_length Hperm). simpl. by rewrite Hpop.
Qed.

Lemma process_queue_drain (host : Host) (target_dir : path)
    (fuel : nat) : ∀ (task_queue : list task) (w : World),
  heapq.heap_ordered task_lt task_queue → length task_queue < fuel →
  process_queue host fuel target_dir task_queue w
    = run_tasks host target_dir (drain task_queue) w.
Proof.
  induction fuel as [|fuel IH]; intros q w Hq Hlen; [lia|]. simpl.
  pose proof (get_nowait_spec q Hq) as Hspec.
  destruct (PriorityQueue.get_nowait q) as [[[pr [e g]] q']|] eqn:Hpop.
  - destruct Hspec as [Hq' Hperm]. rewrite (drain_cons q q' _ Hq Hpop). simpl.
    assert (length q' < fuel) as Hlen'.
    { apply Permutation_length in Hperm. simpl in Hperm. lia. }
    destruct (interrupt_in w) as [[|n]|]; [done| |];
      destruct (run_individual_python_test _ _ _ _ _); try done; by apply IH.
  - by subst q.
Qed.

(** The worker loop of [main] runs the tasks in the order in which a
    single consumer pops them from the queue, and the bound on its rounds
    is never what ends it. *)
Theorem process_queue_runs_in_pop_order (host : Host) (target_dir : path)
    (fuel : nat) (task_queue : list task) (w : World) :
  heapq.heap_ordered task_lt task_queue → length task_queue < fuel →
  process_queue host fuel target_dir task_queue w
    = run_tasks host target_dir (drain task_queue) w.
Proof. apply process_queue_drain. Qed.

Lemma process_queue_runs_in_pop_order_witness :
  process_queue (example_host skipping_child) 3 example_target_dir
    (put_all tasks_b_then_a) example_world
  = run_tasks (example_host skipping_child) example_target_dir
      (drain (put_all tasks_b_then_a)) example_world.
Proof.
  apply (process_queue_runs_in_pop_order (example_host skipping_child)
           example_target_dir 3 (put_all tasks_b_then_a) example_world).
  - apply put_all_spec.
  - vm_compute. lia.
Defined.

Lemma sorted_heavy_then_light (l : list task) :
  StronglySorted (λ a b, (priority a ≤ priority b)%Z) l →
  Forall (λ t, priority t = goal_priority (test_goal t)) l →
  ∃ heavy light,
    l = heavy ++ light ∧
    Forall (λ t, existsb (λ prefix, String.prefix prefix (test_goal t)) heavy_tests = true)
      heavy ∧
    Forall (λ t, existsb (λ prefix, String.prefix prefix (test_goal t)) heavy_tests = false)
      light.
Proof.
  induction 1 as [|t l Hl IH Ht]; intros Hall.
  - by exists [], [].
  - apply Forall_cons in Hall as [Hpt Hall].
    destruct (IH Hall) as (heavy & light & -> & Hh & Hli).
    unfold goal_priority in Hpt.
    destruct (existsb _ heavy_tests) eqn:Hheavy.
    + exists (t :: heavy), light. split_and!; [done| |done]. by constructor.
    + exists [], (t :: heavy ++ light). split_and!; [done|constructor|].
      constructor; [done|]. apply Forall_app. split; [|done].
      apply Forall_forall. intros t' Ht'.
      assert (priority t ≤ priority t')%Z as Hle.
      { eapply Forall_forall in Ht; [done|]. apply elem_of_app. by left. }
      assert (priority t' = goal_priority (test_goal t')) as Hpt'.
      { eapply Forall_forall in Hall; [done|]. apply elem_of_app. by left. }
      eapply Forall_forall in Hh; [|done]. cbv beta in Hh.
      unfold goal_priority in Hpt'. rewrite Hh in Hpt'. lia.
Qed.

(** In a run by modules, every test goal that starts with one of
    [heavy_tests] is taken from the queue before every goal that does not,
    whatever the order of the modules and of the executables. *)
Theorem heavy_goals_are_taken_first (host : Host) (mods : list PyModule)
    (python_execs : list string) (w w' : World) (task_queue : list task) :
  fill_queue host (inl mods) python_execs [] w = inl (task_queue, w') →
  ∃ heavy light,
    drain task_queue = heavy ++ light ∧
    Forall (λ t, existsb (λ prefix, String.prefix prefix (test_goal t)) heavy_tests = true)
      heavy ∧
    Forall (λ t, existsb (λ prefix, String.prefix prefix (test_goal t)) heavy_tests = false)
      light.
Proof.
  intros Hfill.
  apply fill_queue_spec in Hfill as [Hord Hperm]; [|apply heapq_facts.heap_ordered_nil].
  destruct (pop_all_spec (length task_queue) task_queue) as [Hs Hp]; [done|done|].
  apply sorted_heavy_then_light.
  - eapply StronglySorted_impl; [|exact Hs]. apply task_le_priority.
  - apply Forall_forall. intros t Ht. unfold drain in Ht.
    rewrite Hp, Hperm in Ht. simpl in Ht.
    apply list_elem_of_bind in Ht as (e & Ht & _).
    destruct (python_implementation host e) as [impl|]; [|by apply elem_of_nil in Ht].
    by apply (tasks_of_exec_aux e impl t) in Ht as (_ & ? & _).
Qed.

Lemma heavy_goals_are_taken_first_witness :
  ∃ task_queue w' heavy light,
    fill_queue (example_host skipping_child) (inl [example_module]) ["python3"] []
      example_world = inl (task_queue, w') ∧
    drain task_queue = heavy ++ light ∧
    Forall (λ t, existsb (λ prefix, String.prefix prefix (test_goal t)) heavy_tests = true)
      heavy ∧
    Forall (λ t, existsb (λ prefix, String.prefix prefix (test_goal t)) heavy_tests = false)
      light.
Proof.
  destruct (fill_queue (example_host skipping_child) (inl [example_module]) ["python3"] []
              example_world) as [[q w']|] eqn:Hfill; [|by vm_compute in Hfill].
  destruct (heavy_goals_are_taken_first _ _ _ _ _ _ Hfill) as (heavy & light & H).
  by exists q, w', heavy, light.
Defined.

Example heavy_goal_pops_first :
  (λ t, test_goal t) <$>
    drain (foldl PriorityQueue.put []
             (tasks_of_exec (inl [example_module]) "python3" "CPython"))
  = ["pyspark.sql.tests.test_udf"; "pyspark.sql.functions"].
Proof. vm_compute. reflexivity. Qed.

(** ** The registry over a whole run *)

Lemma registry_ok_same (keys : list (string * string)) (w w' : World) :
  same_registry w w' → registry_ok keys w → registry_ok keys w'.
Proof. unfold same_registry, registry_ok. intros -> H. done. Qed.

Ltac same_registry_side :=
  unfold same_registry; first [done | by (intros; simpl; congruence)].

Lemma record_skipped_tests_registry_ok (host : Host) (test_name pyspark_python : string)
    (out : list Byte.byte) (keys : list (string * string)) (w : World) :
  registry_ok keys w → (pyspark_python, test_name) ∈ keys →
  match record_skipped_tests host test_name pyspark_python out w with
  | Ok _ w' => registry_ok keys w'
  | Raised w' => registry_ok keys w'
  end.
Proof.
  intros Hok Hkey. unfold record_skipped_tests, mbind, IO_bind.
  case_decide as Hk; [|done].
  unfold store_skipped_tests. destruct (SKIPPED_TESTS w) as [registry|] eqn:Hreg; [|done].
  unfold mbind, IO_bind, io_fault, exec.
  assert (registry_ok keys
            (set_SKIPPED_TESTS
               (Some (<[(pyspark_python, test_name) := find_skipped_tests host out]>
                        registry)) w)) as Hnew.
  { intros registry' key lines [= <-]. simpl.
    destruct (decide (key = (pyspark_python, test_name))) as [->|Hne].
    - rewrite lookup_insert_eq. intros [= <-]. split_and!; [done| |].
      + intros Hnil. rewrite Hnil in Hk. simpl in Hk. lia.
      + apply Forall_forall. intros line Hl.
        by apply find_skipped_tests_elem in Hl as [_ ?].
    - rewrite lookup_insert_ne by done. by apply Hok. }
  destruct (io_faults w) as [|[] fs]; simpl; done.
Qed.

Lemma record_skipped_tests_registry_set (host : Host)
    (test_name pyspark_python : string) (out : list Byte.byte) (w : World) :
  is_Some (SKIPPED_TESTS w) →
  match record_skipped_tests host test_name pyspark_python out w with
  | Ok _ w' => is_Some (SKIPPED_TESTS w')
  | Raised w' => is_Some (SKIPPED_TESTS w')
  end.
Proof.
  intros Hset. unfold record_skipped_tests, mbind, IO_bind.
  case_decide as Hk; [|done].
  unfold store_skipped_tests. destruct (SKIPPED_TESTS w) as [registry|] eqn:Hreg; [|done].
  unfold mbind, IO_bind, io_fault, exec.
  destruct (io_faults w) as [|[] fs]; simpl; rewrite ?Hreg; by eexists.
Qed.

(** An invariant of the world that only looks at the registry is kept by
    a task, and so by a run, as soon as recording the skipped tests of a
    task keeps it. *)
Section registry_invariant.
Variable host : Host.
Variable Inv : World → Prop.
Variable allowed : string * string → Prop.
Hypothesis Inv_same : ∀ w w', same_registry w w' → Inv w → Inv w'.
Hypothesis Inv_record : ∀ test_name pyspark_python out w,
  allowed (pyspark_python, test_name) → Inv w →
  match record_skipped_tests host test_name pyspark_python out w with
  | Ok _ w' => Inv w'
  | Raised w' => Inv w'
  end.

Lemma run_registry_invariant (target_dir : path) (test_name pyspark_python : string)
    (w : World) :
  Inv w → allowed (pyspark_python, test_name) →
  match run_individual_python_test host target_dir test_name pyspark_python w with
  | Returns w' => Inv w'
  | Exits _ w' => Inv w'
  | Hangs => True
  end.
Proof.
  intros Hok Hkey. unfold run_individual_python_test.
  destruct (prepare _ _ _ _) as [[[[env t] m] w1]|] eqn:Hprep; [|done].
  destruct (prepare_frame _ _ _ _ _ _ _ _ Hprep) as (_ & _ & _ & Hs1 & _).
  set (w2 := emit (LOGGER_info (Starting_test pyspark_python test_name)) w1).
  assert (Inv w2) as Hok2 by (eapply Inv_same; [|exact Hok]; unfold same_registry; by simpl).
  clearbody w2.
  pose proof (spawn_respects host same_registry ltac:(same_registry_side)
                ltac:(same_registry_side) ltac:(same_registry_side)
                ltac:(same_registry_side) env test_name t w2) as Hs.
  destruct (spawn _ _ _ _ _) as [[rc out] w3|w3]; simpl.
  - assert (Inv w3) as Hok3 by by eapply Inv_same.
    case_decide.
    + unfold report_failure.
      pose proof (bind_respects same_registry ltac:(same_registry_side)
                    (append_to_log out) (λ _, echo_lines host (readlines out))
                    (append_to_log_respects same_registry ltac:(same_registry_side)
                       ltac:(same_registry_side) ltac:(same_registry_side)
                       ltac:(same_registry_side) out)
                    (λ _, echo_lines_respects host same_registry
                            ltac:(same_registry_side) ltac:(same_registry_side)
                            ltac:(same_registry_side) ltac:(same_registry_side) _) w3)
        as Hr.
      destruct ((append_to_log out ≫= _) w3);
        (eapply Inv_same; [|exact Hok3]); unfold same_registry in *; simpl;
        congruence.
    + unfold finish_test.
      pose proof (Inv_record test_name pyspark_python out w3 Hkey Hok3) as Hrec.
      destruct (record_skipped_tests _ _ _ _ _) as [n w4|w4].
      * case_decide; (eapply Inv_same; [|exact Hrec]); by unfold same_registry.
      * eapply Inv_same; [|exact Hrec]. by unfold same_registry.
  - eapply Inv_same; [|exact Hok2]. unfold same_registry in *. simpl. congruence.
Qed.

Lemma run_tasks_registry_invariant (target_dir : path) (ts : list task) : ∀ w : World,
  Inv w → (∀ t, t ∈ ts → allowed t.2) →
  match run_tasks host target_dir ts w with
  | Returns w' => Inv w'
  | Exits _ w' => Inv w'
  | Hangs => True
  end.
Proof.
  induction ts as [|[pr [e g]] ts IH]; intros w Hok Hkeys; simpl; [done|].
  assert (allowed (e, g)) as Hkey by (apply (Hkeys (pr, (e, g))); by left).
  assert (Inv (set_interrupt_in (Nat.pred <$> interrupt_in w) w)) as Hok'
    by (eapply Inv_same; [|exact Hok]; by unfold same_registry).
  pose proof (run_registry_invariant target_dir g e _ Hok' Hkey) as Hrun.
  destruct (interrupt_in w) as [[|n]|];
    [eapply Inv_same; [|exact Hok]; by unfold same_registry| |];
    destruct (run_individual_python_test _ _ _ _ _); try done;
    apply IH; try done; intros t Ht; apply Hkeys; by right.
Qed.

Lemma main_registry_invariant (opts : Options) (w w' : World) :
  Inv w → (∀ t, t ∈ queued_tasks host opts → allowed t.2) →
  final_world (main host opts w) = Some w' → Inv w'.
Proof.
  intros Hok Hkeys. unfold main. unfold queued_tasks in Hkeys.
  set (w0 := emit (LOGGER_info (Will_test_executables (python_executables opts)))
               (set_log_file None (emit (LOGGER_info Running_PySpark_tests) w))).
  assert (Inv w0) as Hok0 by (eapply Inv_same; [|exact Hok]; by unfold same_registry).
  clearbody w0.
  destruct (work_to_do host opts) as [bad|work].
  { intros [= <-]. eapply Inv_same; [|exact Hok0]. by unfold same_registry. }
  match goal with |- context [fill_queue host work ?es ?q ?wq] =>
    pose proof (fill_queue_respects host same_registry work es
                  ltac:(same_registry_side) ltac:(same_registry_side)
                  ltac:(same_registry_side) q wq) as Hfill;
    pose proof (fill_queue_spec host work es q wq) as Hspec;
    destruct (fill_queue host work es q wq) as [[tq w1]|[st w1]]
  end; simpl in Hfill; cycle 1.
  { intros [= <-]. eapply Inv_same; [exact Hfill|]. eapply Inv_same; [|exact Hok0].
    by unfold same_registry. }
  destruct (Hspec tq w1 (heapq_facts.heap_ordered_nil task_lt) eq_refl) as [Hord Hperm].
  assert (Inv w1) as Hok1.
  { eapply Inv_same; [exact Hfill|]. eapply Inv_same; [|exact Hok0].
    by unfold same_registry. }
  assert (∀ t, t ∈ drain tq → allowed t.2) as Hkeys'.
  { intros t Ht. apply Hkeys. destruct (pop_all_spec (length tq) tq) as [_ Hp];
      [done|done|]. unfold drain in Ht. by rewrite Hp, Hperm in Ht. }
  rewrite process_queue_drain by (done || lia).
  match goal with |- context [run_tasks host ?t ?ts ?wq] =>
    assert (Inv wq) as Hokq
      by (destruct (isdir _ w1); [done|];
          eapply Inv_same; [|exact Hok1]; by unfold same_registry);
    pose proof (run_tasks_registry_invariant t ts wq Hokq Hkeys') as Hrun;
    destruct (run_tasks host t ts wq) as [w2|st w2|]
  end; [| |done].
  - destruct (SKIPPED_TESTS (emit _ w2)) as [registry|] eqn:Hreg; intros [= <-].
    + eapply Inv_same;
        [apply (report_skipped_respects same_registry registry);
           same_registry_side|].
      eapply Inv_same; [|exact Hrun]. by unfold same_registry.
    + eapply Inv_same; [|exact Hrun]. by unfold same_registry.
  - by intros [= <-].
Qed.

End registry_invariant.

(** However the script ends, it leaves the registry set, with entries
    only for (executable, goal) pairs that were put in the queue; no entry
    is empty and every line of an entry passes the skip filter. *)
Theorem script_registry_entries (host : Host) (opts : Options) (w w' : World) :
  final_world (script host opts w) = Some w' →
  is_Some (SKIPPED_TESTS w') ∧
  registry_ok ((λ t : task, t.2) <$> queued_tasks host opts) w'.
Proof.
  intros Hfin. unfold script in Hfin. split.
  - apply (main_registry_invariant host (λ w0, is_Some (SKIPPED_TESTS w0)) (λ _, True))
      with opts (set_SKIPPED_TESTS (Some ∅) w); try done;
      first [ by (unfold same_registry; intros w1 w2 ->)
            | by (intros t e out w0 _; apply record_skipped_tests_registry_set)
            | by eexists ].
  - apply (main_registry_invariant host
             (registry_ok ((λ t : task, t.2) <$> queued_tasks host opts))
             (λ key, key ∈ (λ t : task, t.2) <$> queued_tasks host opts))
      with opts (set_SKIPPED_TESTS (Some ∅) w); try done;
      first [ apply registry_ok_same
            | by (intros t e out w0 Hkey Hok; apply record_skipped_tests_registry_ok)
            | by (intros registry key lines [= <-]; rewrite lookup_empty)
            | by (intros t Ht; apply list_elem_of_fmap; exists t) ].
Qed.

Lemma script_registry_entries_witness :
  ∃ w', final_world (script (example_host skipping_child) (example_options ["b"; "a"])
                       example_world) = Some w' ∧
        is_Some (SKIPPED_TESTS w') ∧
        registry_ok ((λ t : task, t.2)
                       <$> queued_tasks (example_host skipping_child)
                             (example_options ["b"; "a"])) w'.
Proof.
  destruct (final_world (script (example_host skipping_child)
                           (example_options ["b"; "a"]) example_world))
    as [w'|] eqn:Hfin; [|by vm_compute in Hfin].
  exists w'. split; [done|]. by apply script_registry_entries with example_world.
Defined.

(** ** Tasks start one after the other, in the order of the queue *)

Ltac same_started_side :=
  unfold same_started; first [done | by (intros; simpl; congruence)].

Lemma started_snoc (c : list event) (e : event) :
  started (c ++ [e]) = started c ++ started [e].
Proof. unfold started. apply omap_app. Qed.

Lemma echo_lines_same_started (host : Host) (lines : list (list Byte.byte)) :
  io_respects same_started (echo_lines host lines).
Proof.
  induction lines as [|line lines IH]; intros w; simpl; [done|].
  destruct (re.match_ _ _); [apply IH|].
  unfold mbind, IO_bind, io_fault, exec.
  destruct (io_faults w) as [|[] fs]; try done.
  - specialize (IH (emit (Print (decode host line)) w)).
    destruct (echo_lines host lines _); unfold same_started in *; rewrite IH; simpl;
      by rewrite started_snoc, app_nil_r.
  - specialize (IH (emit (Print (decode host line)) (set_io_faults fs w))).
    destruct (echo_lines host lines _); unfold same_started in *; rewrite IH; simpl;
      by rewrite started_snoc, app_nil_r.
Qed.

Lemma run_started (host : Host) (target_dir : path) (test_name pyspark_python : string)
    (w : World) :
  match run_individual_python_test host target_dir test_name pyspark_python w with
  | Returns w' => started (console w') = started (console w) ++ [(pyspark_python, test_name)]
  | Exits _ w' => started (console w') = started (console w) ++ [(pyspark_python, test_name)]
  | Hangs => True
  end.
Proof.
  unfold run_individual_python_test.
  destruct (prepare _ _ _ _) as [[[[env t] m] w1]|] eqn:Hprep; [|done].
  destruct (prepare_frame _ _ _ _ _ _ _ _ Hprep) as (_ & Hc1 & _).
  set (w2 := emit (LOGGER_info (Starting_test pyspark_python test_name)) w1).
  assert (started (console w2) = started (console w) ++ [(pyspark_python, test_name)])
    as H2 by (simpl; by rewrite started_snoc, Hc1).
  clearbody w2.
  pose proof (spawn_respects host same_started ltac:(same_started_side)
                ltac:(same_started_side) ltac:(same_started_side)
                ltac:(same_started_side) env test_name t w2) as Hs.
  unfold same_started in Hs.
  destruct (spawn _ _ _ _ _) as [[rc out] w3|w3]; simpl.
  - case_decide.
    + unfold report_failure.
      pose proof (bind_respects same_started ltac:(same_started_side)
                    (append_to_log out) (λ _, echo_lines host (readlines out))
                    (append_to_log_respects same_started ltac:(same_started_side)
                       ltac:(same_started_side) ltac:(same_started_side)
                       ltac:(same_started_side) out)
                    (λ _, echo_lines_same_started host _) w3) as Hr.
      unfold same_started in Hr.
      destruct ((append_to_log out ≫= _) w3); simpl;
        rewrite !started_snoc, ?app_nil_r; simpl; rewrite ?app_nil_r; congruence.
    + unfold finish_test.
      pose proof (record_skipped_tests_respects host same_started
                    ltac:(same_started_side) ltac:(same_started_side)
                    ltac:(same_started_side) ltac:(same_started_side)
                    test_name pyspark_python out w3) as Hr.
      unfold same_started in Hr.
      destruct (record_skipped_tests _ _ _ _ _) as [n w4|w4].
      * case_decide; simpl; rewrite started_snoc; simpl; rewrite app_nil_r; congruence.
      * simpl. rewrite started_snoc. simpl. rewrite app_nil_r. congruence.
  - rewrite started_snoc. simpl. rewrite app_nil_r. congruence.
Qed.

Lemma run_tasks_started (host : Host) (target_dir : path) (ts : list task) :
  ∀ w : World,
    match run_tasks host target_dir ts w with
    | Returns w' =>
        started (console w') = started (console w) ++ ((λ t : task, t.2) <$> ts)
    | Exits _ w' =>
        ∃ k, k ≤ length ts ∧
             started (console w')
               = started (console w) ++ ((λ t : task, t.2) <$> take k ts)
    | Hangs => True
    end.
Proof.
  induction ts as [|[pr [e g]] ts IH]; intros w; simpl; [by rewrite app_nil_r|].
  pose proof (run_started host target_dir g e
                (set_interrupt_in (Nat.pred <$> interrupt_in w) w)) as Hrun.
  destruct (interrupt_in w) as [[|n]|];
    [exists 0; split; [lia|]; simpl; rewrite started_snoc; simpl; by rewrite !app_nil_r
    | |];
    (destruct (run_individual_python_test _ _ _ _ _) as [w1|st w1|];
     [ specialize (IH w1); simpl in Hrun;
       destruct (run_tasks host target_dir ts w1) as [w'|st w'|];
       [ rewrite IH, Hrun; by rewrite <- app_assoc
       | destruct IH as (k & Hk & IH); exists (S k); split; [lia|];
         rewrite IH, Hrun; simpl; by rewrite <- app_assoc
       | done ]
     | exists 1; split; [lia|]; simpl in *; by rewrite ?take_0
     | done ]).
Qed.

(** The tasks are started one at a time in the order in which they leave
    the queue.  When the worker loop returns, every task of the queue has
    been started; when it ends the process, because a task failed or the
    operator interrupted, the tasks started are a beginning of that order
    and no later task is started. *)
Theorem tasks_start_in_pop_order_and_stop_at_first_failure (host : Host)
    (target_dir : path) (fuel : nat) (task_queue : list task) (w : World) :
  heapq.heap_ordered task_lt task_queue → length task_queue < fuel →
  match process_queue host fuel target_dir task_queue w with
  | Returns w' =>
      started (console w')
        = started (console w) ++ ((λ t : task, t.2) <$> drain task_queue)
  | Exits _ w' =>
      ∃ k, k ≤ length task_queue ∧
           started (console w')
             = started (console w) ++ ((λ t : task, t.2) <$> take k (drain task_queue))
  | Hangs => True
  end.
Proof.
  intros Hq Hlen. rewrite process_queue_drain by done.
  pose proof (run_tasks_started host target_dir (drain task_queue) w) as H.
  destruct (run_tasks _ _ _ _) as [w'|st w'|]; [done| |done].
  destruct H as (k & Hk & H). exists k. split; [|done].
  destruct (pop_all_spec (length task_queue) task_queue) as [_ Hp]; [done|done|].
  unfold drain in Hk. by rewrite (Permutation_length Hp) in Hk.
Qed.

Lemma tasks_start_in_pop_order_witness :
  match process_queue (example_host failing_child) 3 example_target_dir
          (put_all tasks_b_then_a) example_world with
  | Returns w' =>
      started (console w')
        = started (console example_world)
            ++ ((λ t : task, t.2) <$> drain (put_all tasks_b_then_a))
  | Exits _ w' =>
      ∃ k, k ≤ length (put_all tasks_b_then_a) ∧
           started (console w')
             = started (console example_world)
                 ++ ((λ t : task, t.2) <$> take k (drain (put_all tasks_b_then_a)))
  | Hangs => True
  end.
Proof.
  apply (tasks_start_in_pop_order_and_stop_at_first_failure (example_host failing_child)
           example_target_dir 3 (put_all tasks_b_then_a) example_world).
  - apply put_all_spec.
  - vm_compute. lia.
Defined.

(** With a failing first task, only that task is started. *)
Example only_first_task_started :
  (λ w', started (console w')) <$>
    final_world (process_queue (example_host failing_child) 3 example_target_dir
                   (put_all tasks_b_then_a) example_world)
  = Some [("python3", "pyspark.sql.tests.a")].
Proof. vm_compute. reflexivity. Qed.

(** ** The default executables *)

(** [get_default_python_executables] gives a list that starts with
    [python3.6] when [which] finds it, and otherwise with the path of
    [python3]; [pypy3] follows when [which] finds it.  When neither
    [python3.6] nor [python3] is found, it ends the process with status 1,
    also when [pypy3] is there. *)
Theorem default_python_executables (host : Host) :
  let pypy := if truthy (which host "pypy3") then ["pypy3"] else [] in
  (truthy (which host "python3.6") = true →
   get_default_python_executables host = inl ("python3.6" :: pypy)) ∧
  (truthy (which host "python3.6") = false →
   ∀ p, which host "python3" = Some p → p ≠ EmptyString →
        get_default_python_executables host = inl (p :: pypy)) ∧
  (truthy (which host "python3.6") = false → truthy (which host "python3") = false →
   ∃ msg, get_default_python_executables host = inr msg) ∧
  (∀ execs, get_default_python_executables host = inl execs → execs ≠ []).
Proof.
  intros pypy. unfold get_default_python_executables.
  assert (filter (λ x, truthy (which host x) = true) ["python3.6"; "pypy3"]
          = (if truthy (which host "python3.6") then ["python3.6"] else []) ++ pypy) as ->.
  { unfold pypy. rewrite !filter_cons, filter_nil.
    destruct (truthy (which host "python3.6")), (truthy (which host "pypy3"));
      repeat case_decide; done. }
  unfold pypy. split_and!.
  - intros ->. by rewrite bool_decide_false by set_solver.
  - intros -> p -> Hp.
    rewrite bool_decide_true by (destruct (truthy _); set_solver).
    by destruct p.
  - intros -> H3.
    rewrite bool_decide_true by (destruct (truthy _); set_solver).
    destruct (which host "python3") as [[|a p]|]; try done; by eexists.
  - intros execs.
    destruct (truthy (which host "python3.6")).
    + rewrite bool_decide_false by set_solver. by intros [= <-].
    + rewrite bool_decide_true by (destruct (truthy _); set_solver).
      destruct (which host "python3") as [[|a p]|]; try done. by intros [= <-].
Qed.

Lemma default_python_executables_witness :
  get_default_python_executables (example_host failing_child)
    = inl ("python3.6" :: ["pypy3"]).
Proof.
  apply (proj1 (default_python_executables (example_host failing_child))).
  reflexivity.
Defined.

(** ** When the runner returns *)

(** The runner returns to the worker loop only after a child that exited
    with status 0: then its last line on the console is the success line of
    the task, with the number of skipped tests when there are some, and
    this number is the number of lines of the buffer that pass the skip
    filter. *)
Theorem run_returns_only_after_success (host : Host) (target_dir : path)
    (test_name pyspark_python : string) (w w' : World) :
  run_individual_python_test host target_dir test_name pyspark_python w = Returns w' →
  ∃ env out,
    Popen_wait host env test_name = Popen_exits 0 out ∧
    last (console w') =
      Some (LOGGER_info
              (if decide (length (find_skipped_tests host out) ≠ 0)
               then Finished_test_skipped pyspark_python test_name
                      (length (find_skipped_tests host out))
               else Finished_test pyspark_python test_name)).
Proof.
  unfold run_individual_python_test.
  destruct (prepare _ _ _ _) as [[[[env t] m] w1]|]; [|done].
  destruct (spawn _ _ _ _ _) as [[rc out] w3|w3] eqn:Hspawn; [|done].
  apply spawn_Ok_inv in Hspawn.
  case_decide as Hrc; [done|].
  assert (rc = 0%Z) as -> by (destruct (decide (rc = 0%Z)); [done|by destruct Hrc]).
  unfold finish_test, record_skipped_tests, mbind, IO_bind.
  intros Hret. exists env, out. split; [done|].
  destruct (if decide (0 < length (find_skipped_tests host out))
            then store_skipped_tests (pyspark_python, test_name)
                   (find_skipped_tests host out)
            else mret ()) as [[] w4|w4] eqn:Hstore; [|done].
  unfold mret, IO_ret in Hret.
  case_decide; injection Hret as <-; simpl; apply last_snoc.
Qed.

Lemma run_returns_only_after_success_witness :
  ∃ w' env out,
    run_individual_python_test (example_host skipping_child) example_target_dir
      "pyspark.x" "python3" example_world = Returns w' ∧
    Popen_wait (example_host skipping_child) env "pyspark.x" = Popen_exits 0 out ∧
    last (console w') =
      Some (LOGGER_info
              (if decide (length (find_skipped_tests (example_host skipping_child) out) ≠ 0)
               then Finished_test_skipped "python3" "pyspark.x"
                      (length (find_skipped_tests (example_host skipping_child) out))
               else Finished_test "python3" "pyspark.x")).
Proof.
  destruct (run_individual_python_test (example_host skipping_child) example_target_dir
              "pyspark.x" "python3" example_world) as [w'| |] eqn:Hrun;
    [|by vm_compute in Hrun..].
  destruct (run_returns_only_after_success _ _ _ _ _ _ Hrun) as (env & out & H).
  by exists w', env, out.
Defined.

(** ** The coverage check *)

Lemma fill_queue_same_started (host : Host) work (python_execs : list string) :
  ∀ task_queue w,
    match fill_queue host work python_execs task_queue w with
    | inl (_, w') => same_started w w' ∧ same_dirs w w'
    | inr (_, w') => same_started w w' ∧ same_dirs w w'
    end.
Proof.
  induction python_execs as [|e es IH]; intros q w; simpl; [done|].
  destruct (_ && _).
  { split; [|done]. unfold same_started. simpl. rewrite started_snoc. simpl.
    by rewrite app_nil_r. }
  destruct (python_implementation host e) as [impl|]; [|done].
  specialize (IH (foldl PriorityQueue.put q (tasks_of_exec work e impl))
                 (emit (LOGGER_info (Python_implementation_is e impl)) w)).
  assert (started (console (emit (LOGGER_info (Python_implementation_is e impl)) w))
          = started (console w)) as Hs
    by (simpl; rewrite started_snoc; simpl; by rewrite app_nil_r).
  destruct (fill_queue _ _ _ _ _) as [[q' w']|[st w']]; destruct IH as [H1 H2];
    unfold same_started, same_dirs in *; simpl in *; split; congruence.
Qed.

(** When COVERAGE_PROCESS_START is in the environment and one of the
    executables has no coverage package, while the implementation of every
    executable can be asked, the run ends with status -1 while the queue is
    filled: no task is started, no directory is made, and the last output
    is a line in red. *)
Theorem missing_coverage_ends_run (host : Host) work (python_execs : list string)
    (python_exec : string) :
  is_Some (os_environ host !! "COVERAGE_PROCESS_START") →
  python_exec ∈ python_execs → coverage_installed host python_exec = false →
  Forall (λ e, is_Some (python_implementation host e)) python_execs →
  ∀ task_queue w,
    ∃ w' msg, fill_queue host work python_execs task_queue w = inr ((-1)%Z, w') ∧
              started (console w') = started (console w) ∧ dirs w' = dirs w ∧
              last (console w') = Some (Print_red msg).
Proof.
  intros Hcov Hin Hno Himpl.
  induction python_execs as [|e es IH]; [by apply elem_of_nil in Hin|].
  intros q w. apply Forall_cons in Himpl as [[impl Hi] Himpl]. simpl.
  rewrite bool_decide_true by done. simpl.
  destruct (coverage_installed host e) eqn:Hce; simpl.
  - rewrite Hi. apply elem_of_cons in Hin as [->|Hin]; [congruence|].
    destruct (IH Hin Himpl (foldl PriorityQueue.put q (tasks_of_exec work e impl))
                (emit (LOGGER_info (Python_implementation_is e impl)) w))
      as (w' & msg & -> & Hs & Hd & Hl).
    exists w', msg. split_and!; try done.
    rewrite Hs. simpl. rewrite started_snoc. simpl. by rewrite app_nil_r.
  - eexists _, _. split; [reflexivity|]. simpl. split_and!; [|done|apply last_snoc].
    rewrite started_snoc. simpl. by rewrite app_nil_r.
Qed.

Lemma missing_coverage_ends_run_witness :
  ∃ w' msg,
    fill_queue host_without_coverage (inr ["pyspark.sql"]) ["python3"] [] example_world
      = inr ((-1)%Z, w') ∧
    started (console w') = started (console example_world) ∧
    dirs w' = dirs example_world ∧
    last (console w') = Some (Print_red msg).
Proof.
  apply (missing_coverage_ends_run host_without_coverage (inr ["pyspark.sql"])
           ["python3"] "python3").
  - by eexists.
  - by left.
  - reflexivity.
  - repeat constructor. by eexists.
Defined.
